(** * secure-group-chat: the message store, its HTTP routes and its socket
    handlers

    A shallow embedding of
      - the Message model, models/Message.js (the second module of
        src/models/Group.js): schema defaults and the document methods
        [markAsRead], [softDelete], [edit];
      - the message routes, routes/message.js (the second module of
        src/routes/auth.js): the five routes under
        /api/groups/:groupId/messages;
      - the socket manager, sockets/socketManager.js: the handlers of
        'chat message' and 'read receipt';
      - middleware/auth.js and the login route, for the shape of [req.user].

    Conventions of the embedding.
      - A document is a record holding every key the code writes or reads.
        The routes use the keys [content], [sender] and [metadata] next to
        the schema's [text] and [user]; both families are fields here, each
        written only where the source writes it.
      - A JavaScript value that may be [undefined] is an [option]; a Date is
        a [nat] (milliseconds); a Number holding an integer is a [Z] (exact
        below 2^53, which is where the two agree).
      - Identifiers are strings.  What the driver does with a string that is
        not an ObjectId is not modelled: store reads complete.
      - The store, the socket server and the loggers are one explicit
        [World]; every effect a handler performs is appended to [trace] in
        the order the handler performs it.
      - A store write can be rejected (schema validation or infrastructure):
        the world carries the verdicts of the coming writes in [faults].
      - A handler runs from start to end on the world it is given.  The
        interleaving of two handlers between their store read and their
        store write is modelled separately, in [Module Interleaving]. *)

From Stdlib Require Import Ascii ZArith Lia.
From stdpp Require Import base list sets strings sorting pretty.

Local Open Scope string_scope.
Local Open Scope Z_scope.

(** ** Data model *)

(** The embedded [userSchema] of models/Message.js ({ _id: false }). *)
Record UserSub := mkUserSub {
  us_id : string;
  us_name : option string;
  us_email : option string;
}.

(** A Message document.  [id_] is the schema's [id] (the client-chosen
    logical id of the socket path); [_id] is the store's ObjectId, in its
    string rendering. *)
Record Message := mkMessage {
  _id : string;
  id_ : option string;
  text : option string;
  content : option string;
  group : string;
  sender : option string;
  user : option UserSub;
  type : string;
  mediaUrl : option string;
  mediaType : option string;
  metadata : option string;
  readBy : list string;
  deleted : bool;
  deletedBy : option string;
  edited : bool;
  editedAt : option nat;
  replyTo : option string;
  createdAt : nat;
  updatedAt : nat;
}.

(** models/Group.js *)
Record Group := mkGroup {
  g_id : string;
  g_name : string;
  members : list string;
  creator : string;
}.

(** [req.user]: the decoded token.  The login route signs
    [{ id: user._id, role: user.role }], so a token issued by this service
    has no [name]; the field is kept optional because the list route reads
    [req.user.name]. *)
Record AuthUser := mkAuthUser {
  au_id : string;
  au_role : option string;
  au_name : option string;
}.

(** routes/auth.js, login: the payload given to [jwt.sign]. *)
Definition login_payload (userId role : string) : AuthUser :=
  mkAuthUser userId (Some role) None.

(** The payload of the socket event 'chat message', as the client sends
    it. *)
Record ChatData := mkChatData {
  d_id : option string;
  d_text : option string;
  d_groupId : string;
  d_user : option UserSub;
  d_type : option string;
  d_mediaUrl : option string;
  d_mediaType : option string;
}.

(** The payload of the socket event 'read receipt'. *)
Record ReceiptData := mkReceiptData {
  rd_messageId : string;
  rd_groupId : string;
  rd_user : option string;
}.

(** What is sent to a room. *)
Inductive Payload :=
| PMessage (m : Message)
| PDeleted (messageId deletedBy : string)
| PRead (messageId userId : string)
| PChat (data : ChatData) (timestamp : nat)
| PReceipt (messageId : string) (who : option string) (groupId : string).

(** The effects of a handler, in the order they happen. *)
Inductive Effect :=
| Stored (m : Message)
| StoreRejected
| Emitted (room event : string) (payload : Payload)
| Logged (level line : string).

Record World := mkWorld {
  messages : list Message;
  groups : list Group;
  trace : list Effect;
  faults : list bool;
  clock : nat;
  oidgen : nat;
}.

Definition set_messages (ms : list Message) (w : World) : World :=
  mkWorld ms (groups w) (trace w) (faults w) (clock w) (oidgen w).
Definition set_faults (fs : list bool) (w : World) : World :=
  mkWorld (messages w) (groups w) (trace w) fs (clock w) (oidgen w).
Definition set_oidgen (n : nat) (w : World) : World :=
  mkWorld (messages w) (groups w) (trace w) (faults w) (clock w) n.
Definition record (e : Effect) (w : World) : World :=
  mkWorld (messages w) (groups w) (trace w ++ [e])%list (faults w) (clock w)
          (oidgen w).

(** Setters for the fields the document methods assign. *)
Definition set_readBy (l : list string) (m : Message) : Message :=
  mkMessage (_id m) (id_ m) (text m) (content m) (group m) (sender m) (user m)
    (type m) (mediaUrl m) (mediaType m) (metadata m) l (deleted m)
    (deletedBy m) (edited m) (editedAt m) (replyTo m) (createdAt m)
    (updatedAt m).
Definition set_deleted (b : bool) (by_ : option string) (m : Message) : Message :=
  mkMessage (_id m) (id_ m) (text m) (content m) (group m) (sender m) (user m)
    (type m) (mediaUrl m) (mediaType m) (metadata m) (readBy m) b by_
    (edited m) (editedAt m) (replyTo m) (createdAt m) (updatedAt m).
Definition set_text (t : option string) (e : bool) (at_ : option nat)
    (m : Message) : Message :=
  mkMessage (_id m) (id_ m) t (content m) (group m) (sender m) (user m)
    (type m) (mediaUrl m) (mediaType m) (metadata m) (readBy m) (deleted m)
    (deletedBy m) e at_ (replyTo m) (createdAt m) (updatedAt m).
Definition set_updatedAt (t : nat) (m : Message) : Message :=
  mkMessage (_id m) (id_ m) (text m) (content m) (group m) (sender m) (user m)
    (type m) (mediaUrl m) (mediaType m) (metadata m) (readBy m) (deleted m)
    (deletedBy m) (edited m) (editedAt m) (replyTo m) (createdAt m) t.
Definition set_timestamps (t : nat) (m : Message) : Message :=
  mkMessage (_id m) (id_ m) (text m) (content m) (group m) (sender m) (user m)
    (type m) (mediaUrl m) (mediaType m) (metadata m) (readBy m) (deleted m)
    (deletedBy m) (edited m) (editedAt m) (replyTo m) t t.

(** ** JavaScript primitives the handlers rely on *)

(** Truthiness of a value that is a string or [undefined]. *)
Definition truthy (v : option string) : bool :=
  match v with
  | Some s => negb (String.eqb s "")
  | None => false
  end.

(** [arr.includes(v)] on an array of strings. *)
Definition includes (arr : list string) (v : option string) : bool :=
  match v with
  | Some s => bool_decide (s ∈ arr)
  | None => false
  end.

(** [a || b] on strings. *)
Definition or_else (a : option string) (b : string) : string :=
  match a with
  | Some s => if String.eqb s "" then b else s
  | None => b
  end.

(** ** The handler monad: state and exceptions *)

Inductive Outcome (A : Type) :=
| Returned (a : A)
| Thrown (e : string).
Arguments Returned {A} a.
Arguments Thrown {A} e.

Definition M (A : Type) : Type := World → Outcome A * World.

Definition ret {A} (a : A) : M A := λ w, (Returned a, w).
Definition bind {A B} (c : M A) (k : A → M B) : M B :=
  λ w, match c w with
       | (Returned a, w') => k a w'
       | (Thrown e, w') => (Thrown e, w')
       end.
Definition throw {A} (e : string) : M A := λ w, (Thrown e, w).
Definition try_catch {A} (body : M A) (handler : string → M A) : M A :=
  λ w, match body w with
       | (Returned a, w') => (Returned a, w')
       | (Thrown e, w') => handler e w'
       end.
Definition get_world : M World := λ w, (Returned w, w).
Definition effect (e : Effect) : M unit := λ w, (Returned tt, record e w).

Declare Scope handler_scope.
Delimit Scope handler_scope with handler.
Notation "'let*' x ':=' c 'in' k" := (bind c (λ x, k))
  (at level 10, x name, c at level 100, k at level 200) : handler_scope.
Notation "c ';;' k" := (bind c (λ _, k))
  (at level 100, k at level 200, right associativity) : handler_scope.
Local Open Scope handler_scope.

(** [io.to(room).emit(event, payload)] *)
Definition emit (room event : string) (p : Payload) : M unit :=
  effect (Emitted room event p).
(** [console.error], [logger.error], [logger.info] *)
Definition log (level line : string) : M unit := effect (Logged level line).
(** [new Date()] *)
Definition new_Date : M nat := λ w, (Returned (clock w), w).

(** ** The store: the calls the handlers make on the models *)

(** [Group.findById(groupId)] *)
Definition Group_findById (groupId : string) : M (option Group) :=
  λ w, (Returned (List.find (λ g, String.eqb (g_id g) groupId) (groups w)), w).

(** [Message.findOne(query)]: the query object is its matching predicate. *)
Definition Message_findOne (query : Message → bool) : M (option Message) :=
  λ w, (Returned (List.find query (messages w)), w).

(** [Message.findById(messageId)] *)
Definition Message_findById (messageId : string) : M (option Message) :=
  Message_findOne (λ m, String.eqb (_id m) messageId).

(** [Message.countDocuments(query)] *)
Definition Message_countDocuments (query : Message → bool) : M Z :=
  λ w, (Returned (Z.of_nat (length (List.filter query (messages w)))), w).

(** [.sort({ createdAt: 1 })] *)
Definition createdAt_le : relation Message :=
  λ a b, (createdAt a ≤ createdAt b)%nat.

Global Instance createdAt_le_dec : RelDecision createdAt_le.
Proof. intros a b. unfold createdAt_le. apply _. Defined.

Global Instance createdAt_le_total : Total createdAt_le.
Proof. intros a b. unfold createdAt_le. lia. Qed.

Definition sort_by_createdAt : list Message → list Message :=
  merge_sort createdAt_le.

(** [.skip(skip).limit(limit)] on the sorted result.  For the values the
    routes compute from a page and a limit that are at least 1 this is the
    slice of [limit] documents after the first [skip].  Outside that range
    the definition follows the driver: a negative skip is rejected by the
    server, a negative limit is read as its absolute value, and 0 as no
    limit. *)
Definition skip_limit {A} (skip limit : Z) (docs : list A) : option (list A) :=
  if skip <? 0 then None
  else if limit =? 0 then Some (drop (Z.to_nat skip) docs)
  else Some (take (Z.to_nat (Z.abs limit)) (drop (Z.to_nat skip) docs)).

(** [Message.find(query).sort({ createdAt: 1 }).skip(skip).limit(limit)] *)
Definition Message_find_page (query : Message → bool) (skip limit : Z)
    : M (list Message) :=
  λ w, match skip_limit skip limit
               (sort_by_createdAt (List.filter query (messages w))) with
       | Some page => (Returned page, w)
       | None => (Thrown "MongoServerError: skip", w)
       end.

(** One write to the store.  Its verdict is the head of [faults] ([true]:
    the write is rejected, by validation or by the infrastructure); when no
    verdict is queued the write is acknowledged. *)
Definition next_write_ok (w : World) : bool :=
  match faults w with
  | true :: _ => false
  | _ => true
  end.

Definition store_write (commit : list Message → list Message) (m : Message)
    : M unit :=
  λ w, let w' := set_faults (tail (faults w)) w in
       if next_write_ok w
       then (Returned tt, record (Stored m) (set_messages (commit (messages w)) w'))
       else (Thrown "store write failed", record StoreRejected w').

(** The store after the document with the id of [m] was written as [m]. *)
Definition replace_doc (m : Message) (docs : list Message) : list Message :=
  map (λ d, if String.eqb (_id d) (_id m) then m else d) docs.

(** [this.save()] on a document that was loaded from the store
    (timestamps: true stamps [updatedAt]).  In a handler that is not
    interrupted the stored document is the copy that was loaded, so writing
    the changes leaves the changed copy in the store. *)
Definition save (this : Message) : M Message :=
  let* now := new_Date in
  let this' := set_updatedAt now this in
  store_write (replace_doc this') this';;
  ret this'.

(** The ObjectId a new document gets: 24 digits, from a counter. *)
Fixpoint zeros (k : nat) : string :=
  match k with
  | O => ""
  | S k' => String "0"%char (zeros k')
  end.

Definition oid (n : nat) : string :=
  zeros (24 - String.length (pretty n)) +:+ pretty n.

Definition ObjectId_new : M string :=
  λ w, (Returned (oid (oidgen w)), set_oidgen (S (oidgen w)) w).

(** [this.save()] on a document built with [new Message(...)]: an insert
    (timestamps: true stamps [createdAt] and [updatedAt]). *)
Definition insert (this : Message) : M Message :=
  let* now := new_Date in
  let this' := set_timestamps now this in
  store_write (λ docs, (docs ++ [this'])%list) this';;
  ret this'.

(** [Message.create(fields)]: [new Message(fields)] then [save()]. *)
Definition Message_create (fields : string → Message) : M Message :=
  let* oid := ObjectId_new in
  insert (fields oid).

(** [Promise.all(promises)]: every promise runs to its end; the result is
    the list of values, or the first rejection. *)
Fixpoint Promise_all {A} (promises : list (M A)) : M (list A) :=
  match promises with
  | [] => ret []
  | p :: rest =>
      λ w, match p w with
           | (Returned a, w1) =>
               match Promise_all rest w1 with
               | (Returned l, w2) => (Returned (a :: l), w2)
               | (Thrown e, w2) => (Thrown e, w2)
               end
           | (Thrown e, w1) => (Thrown e, snd (Promise_all rest w1))
           end
  end.

(** ** models/Message.js: the document methods

    A method mutates [this] and saves it; here it returns the mutated
    document. *)

(** The synchronous part of [markAsRead]: the array after the call, when
    the call pushes. *)
Definition markAsRead_push (readBy : list string) (userName : option string)
    : option (list string) :=
  match userName with
  | Some name =>
      if truthy userName && negb (includes readBy userName)
      then Some (readBy ++ [name])%list
      else None
  | None => None
  end.

Definition markAsRead (this : Message) (userName : option string) : M Message :=
  match markAsRead_push (readBy this) userName with
  | Some readBy' => save (set_readBy readBy' this)
  | None => ret this
  end.

Definition softDelete (this : Message) (userId : string) : M Message :=
  save (set_deleted true (Some userId) this).

Definition edit (this : Message) (newText : option string) : M Message :=
  let* now := new_Date in
  save (set_text newText true (Some now) this).

(** ** [parseInt] and the pagination parameters *)

Definition is_space (a : ascii) : bool :=
  let n := nat_of_ascii a in
  ((9 <=? n) && (n <=? 13) || (n =? 32))%nat.

Fixpoint trim_start (s : string) : string :=
  match s with
  | String a s' => if is_space a then trim_start s' else s
  | EmptyString => s
  end.

Definition digit_value (radix : Z) (a : ascii) : option Z :=
  let n := Z.of_nat (nat_of_ascii a) in
  let d := if (48 <=? n) && (n <=? 57) then n - 48
           else if (97 <=? n) && (n <=? 122) then n - 87
           else if (65 <=? n) && (n <=? 90) then n - 55
           else radix in
  if d <? radix then Some d else None.

(** The longest prefix of digits, as a number; [None] when it is empty. *)
Fixpoint parse_digits (radix : Z) (s : string) (acc : option Z) : option Z :=
  match s with
  | String a s' =>
      match digit_value radix a with
      | Some d => parse_digits radix s' (Some (radix * default 0 acc + d))
      | None => acc
      end
  | EmptyString => acc
  end.

Definition strip_sign (s : string) : Z * string :=
  match s with
  | String "-"%char r => (-1, r)
  | String "+"%char r => (1, r)
  | _ => (1, s)
  end.

Definition strip_radix (s : string) : Z * string :=
  match s with
  | String "0"%char (String "x"%char r) => (16, r)
  | String "0"%char (String "X"%char r) => (16, r)
  | _ => (10, s)
  end.

(** [parseInt(v)] with no radix argument; [None] is NaN.  An absent
    parameter is [undefined], whose string has no leading digit. *)
Definition parseInt (v : option string) : option Z :=
  match v with
  | Some s =>
      let '(sign, s1) := strip_sign (trim_start s) in
      let '(radix, s2) := strip_radix s1 in
      match parse_digits radix s2 None with
      | Some n => Some (sign * n)
      | None => None
      end
  | None => None
  end.


(** [n || d] on numbers: NaN and 0 are falsy. *)
Definition num_or (n : option Z) (d : Z) : Z :=
  match n with
  | Some n => if n =? 0 then d else n
  | None => d
  end.

(** [const page = parseInt(req.query.page) || 1] *)
Definition page_of (q : option string) : Z := num_or (parseInt q) 1.
(** [const limit = parseInt(req.query.limit) || 50] *)
Definition limit_of (q : option string) : Z := num_or (parseInt q) 50.

(** [Math.ceil(total / limit)]; [limit] is never 0 where it is called. *)
Definition ceil_div (total limit : Z) : Z := - ((- total) / limit).

(** ** routes/message.js *)

Inductive Body :=
| BError (error : string)
| BMessages (msgs : list Message) (total page pages limit : Z)
| BMessage (m : Message)
| BSuccess.

Record Response := mkResponse {
  status : nat;
  body : Body;
}.

Definition is_member (u : AuthUser) (g : Group) : bool :=
  bool_decide (au_id u ∈ members g).

(** The query [{ group: groupId, deleted: false }]. *)
Definition in_group_live (groupId : string) (m : Message) : bool :=
  String.eqb (group m) groupId && negb (deleted m).

(** The query [{ _id: messageId, group: groupId, deleted: false }]. *)
Definition is_live_parent (messageId groupId : string) (m : Message) : bool :=
  String.eqb (_id m) messageId && String.eqb (group m) groupId
  && negb (deleted m).

(** The query
    [{ _id: messageId, group: groupId, sender: req.user.id, deleted: false }]. *)
Definition is_own_live (messageId groupId userId : string) (m : Message)
    : bool :=
  String.eqb (_id m) messageId && String.eqb (group m) groupId
  && bool_decide (sender m = Some userId) && negb (deleted m).

(** GET /:groupId/messages *)
Definition get_messages (u : AuthUser) (groupId : string)
    (qpage qlimit : option string) : M Response :=
  try_catch
    (let page := page_of qpage in
     let limit := limit_of qlimit in
     let skip := (page - 1) * limit in
     let* grp := Group_findById groupId in
     match grp with
     | None => ret (mkResponse 404 (BError "Group not found"))
     | Some g =>
         if negb (is_member u g)
         then ret (mkResponse 403 (BError "You are not a member of this group"))
         else
           let* found := Message_find_page (in_group_live groupId) skip limit in
           let* total := Message_countDocuments (in_group_live groupId) in
           let* marked :=
             Promise_all
               (map (λ message,
                       if includes (readBy message) (au_name u)
                       then ret message
                       else markAsRead message (au_name u))
                    found) in
           ret (mkResponse 200
                  (BMessages marked total page (ceil_div total limit) limit))
     end)
    (λ error,
       log "error" "Error fetching messages:";;
       ret (mkResponse 500 (BError "Failed to fetch messages"))).

(** [message.populate(path, fields)] replaces a stored reference by the
    referenced document in the response; the document itself, which is what
    this model carries, is the one that was stored. *)
Definition populate (message : Message) : M Message := ret message.

(** POST /:groupId/messages *)
Definition post_message (u : AuthUser) (groupId : string)
    (content_ type_ metadata_ replyTo_ : option string) : M Response :=
  try_catch
    (let type' := default "text" type_ in
     let* grp := Group_findById groupId in
     match grp with
     | None => ret (mkResponse 404 (BError "Group not found"))
     | Some g =>
         if negb (is_member u g)
         then ret (mkResponse 403 (BError "You are not a member of this group"))
         else
           let* parent :=
             if truthy replyTo_
             then Message_findOne (is_live_parent (default "" replyTo_) groupId)
             else ret None in
           if truthy replyTo_ && negb (bool_decide (is_Some parent))
           then ret (mkResponse 404 (BError "Parent message not found"))
           else
             let* message :=
               Message_create (λ oid,
                 mkMessage oid None None content_ groupId (Some (au_id u)) None
                   type' None None metadata_ [au_id u] false None false None
                   replyTo_ 0%nat 0%nat) in
             let* message := populate message in
             let* message := populate message in
             emit groupId "newMessage" (PMessage message);;
             ret (mkResponse 201 (BMessage message))
     end)
    (λ error,
       log "error" "Error sending message:";;
       ret (mkResponse 500 (BError "Failed to send message"))).

(** PUT /:groupId/messages/:messageId *)
Definition put_message (u : AuthUser) (groupId messageId : string)
    (content_ : option string) : M Response :=
  try_catch
    (let* found := Message_findOne (is_own_live messageId groupId (au_id u)) in
     match found with
     | None => ret (mkResponse 404 (BError "Message not found or unauthorized"))
     | Some message =>
         let* message := edit message content_ in
         let* message := populate message in
         let* message := populate message in
         emit groupId "messageEdited" (PMessage message);;
         ret (mkResponse 200 (BMessage message))
     end)
    (λ error,
       log "error" "Error editing message:";;
       ret (mkResponse 500 (BError "Failed to edit message"))).

(** DELETE /:groupId/messages/:messageId *)
Definition delete_message (u : AuthUser) (groupId messageId : string)
    : M Response :=
  try_catch
    (let* found := Message_findOne (is_own_live messageId groupId (au_id u)) in
     match found with
     | None => ret (mkResponse 404 (BError "Message not found or unauthorized"))
     | Some message =>
         let* message := softDelete message (au_id u) in
         emit groupId "messageDeleted" (PDeleted messageId (au_id u));;
         ret (mkResponse 200 BSuccess)
     end)
    (λ error,
       log "error" "Error deleting message:";;
       ret (mkResponse 500 (BError "Failed to delete message"))).

(** POST /:groupId/messages/:messageId/read *)
Definition read_message (u : AuthUser) (groupId messageId : string)
    : M Response :=
  try_catch
    (let* grp := Group_findById groupId in
     match grp with
     | None => ret (mkResponse 404 (BError "Group not found"))
     | Some g =>
         if negb (is_member u g)
         then ret (mkResponse 403 (BError "You are not a member of this group"))
         else
           let* found := Message_findById messageId in
           match found with
           | None => ret (mkResponse 404 (BError "Message not found"))
           | Some message =>
               let* message := markAsRead message (Some (au_id u)) in
               emit groupId "messageRead" (PRead messageId (au_id u));;
               ret (mkResponse 200 BSuccess)
           end
     end)
    (λ error,
       log "error" "Error marking message as read:";;
       ret (mkResponse 500 (BError "Failed to mark message as read"))).

(** ** sockets/socketManager.js *)

(** socket.on('chat message', ...).  Reading [data.user.id] when the
    payload has no [user] throws before the [try]. *)
Definition on_chat_message (data : ChatData) : M unit :=
  log "info" "Message received for group:";;
  match d_user data with
  | None => throw "TypeError: data.user is undefined"
  | Some usr =>
      let* oid := ObjectId_new in
      let message :=
        mkMessage oid (d_id data) (d_text data) None (d_groupId data) None
          (Some usr) (or_else (d_type data) "text") (d_mediaUrl data)
          (d_mediaType data) None [] false None false None None 0%nat 0%nat in
      try_catch
        (let* message := insert message in
         log "info" "Message saved to database";;
         emit (d_groupId data) "chat message"
              (PChat data (createdAt message)))
        (λ error, log "error" "Error saving message:")
  end.

(** socket.on('read receipt', ...) *)
Definition on_read_receipt (data : ReceiptData) : M unit :=
  log "info" "Read receipt in group:";;
  try_catch
    (let* found :=
       Message_findOne
         (λ m, bool_decide (id_ m = Some (rd_messageId data))) in
     match found with
     | Some message =>
         let* message := markAsRead message (rd_user data) in
         emit (rd_groupId data) "messageRead"
              (PReceipt (rd_messageId data) (rd_user data) (rd_groupId data))
     | None => log "error" "Message not found:"
     end)
    (λ error, log "error" "Error updating read receipt:").

(** The HTTP status of a handler's answer (0 when the handler threw). *)
Definition status_of (r : Outcome Response * World) : nat :=
  match fst r with
  | Returned resp => status resp
  | Thrown _ => 0%nat
  end.

(** ** The worlds and documents the handlers produce *)

(** The world after an acknowledged write that leaves [docs] in the store,
    and after a rejected one. *)
Definition after_write (docs : list Message) (m : Message) (w : World) : World :=
  record (Stored m) (set_messages docs (set_faults (tail (faults w)) w)).

Definition after_rejection (w : World) : World :=
  record StoreRejected (set_faults (tail (faults w)) w).

(** The document after [edit(newText)] at time [now]. *)
Definition edited_doc (newText : option string) (now : nat) (m : Message)
    : Message :=
  set_updatedAt now (set_text newText true (Some now) m).

(** The document after [softDelete(userId)] at time [now]. *)
Definition deleted_doc (userId : string) (now : nat) (m : Message) : Message :=
  set_updatedAt now (set_deleted true (Some userId) m).

(** The document after [markAsRead(userName)] at time [now]. *)
Definition read_doc (userName : option string) (now : nat) (m : Message)
    : Message :=
  match markAsRead_push (readBy m) userName with
  | Some readBy' => set_updatedAt now (set_readBy readBy' m)
  | None => m
  end.

(** The document [Message.create] is given by the create route, with the
    timestamps of the insert. *)
Definition posted_doc (u : AuthUser) (groupId : string)
    (content_ type_ metadata_ replyTo_ : option string) (oid : string)
    (now : nat) : Message :=
  mkMessage oid None None content_ groupId (Some (au_id u)) None
    (default "text" type_) None None metadata_ [au_id u] false None false None
    replyTo_ now now.

(** The document the 'chat message' handler builds and saves. *)
Definition chat_doc (data : ChatData) (usr : UserSub) (oid : string)
    (now : nat) : Message :=
  mkMessage oid (d_id data) (d_text data) None (d_groupId data) None
    (Some usr) (or_else (d_type data) "text") (d_mediaUrl data)
    (d_mediaType data) None [] false None false None None now now.

(** The group a request addresses. *)
Definition find_group (groupId : string) (w : World) : option Group :=
  List.find (λ g, String.eqb (g_id g) groupId) (groups w).

(** The check [if (replyTo) { ... if (!parentMessage) return 404 }] passes. *)
Definition parent_ok (replyTo_ : option string) (groupId : string) (w : World)
    : bool :=
  negb (truthy replyTo_)
  || bool_decide (is_Some (List.find (is_live_parent (default "" replyTo_) groupId)
                                     (messages w))).

(** ** Conditions on the effects of a handler *)

(** Every emit comes after an acknowledged write. *)
Definition emit_only_after_store (es : list Effect) : Prop :=
  ∀ es1 room event p es2,
    es = (es1 ++ Emitted room event p :: es2)%list → ∃ m, Stored m ∈ es1.

(** When a write was rejected nothing is emitted, and an error is logged. *)
Definition rejected_means_silent (es : list Effect) : Prop :=
  StoreRejected ∈ es →
  (∀ room event p, Emitted room event p ∉ es)
  ∧ ∃ line, Logged "error" line ∈ es.

(** The decision procedure behind [emit_only_after_store]; [acked] tells
    whether a write was acknowledged so far. *)
Fixpoint emits_follow_store (acked : bool) (es : list Effect) : bool :=
  match es with
  | [] => true
  | Stored _ :: rest => emits_follow_store true rest
  | Emitted _ _ _ :: rest => acked && emits_follow_store acked rest
  | _ :: rest => emits_follow_store acked rest
  end.

(** The document a request addresses by its id. *)
Definition find_message (messageId : string) (w : World) : option Message :=
  List.find (λ m, String.eqb (_id m) messageId) (messages w).

(** Mark-read requests served one after another: each handler ends before
    the next one starts. *)
Definition read_all (us : list AuthUser) (groupId messageId : string)
    (w : World) : World :=
  fold_left (λ w u, snd (read_message u groupId messageId w)) us w.


(** ** Interleaved mark-read calls

    A mark-read call reads the document ([Message.findById]) and later writes
    it ([markAsRead]: the [includes] test and the [push] on the copy it read,
    then [save()]).  Other calls can run between the two.  What [save()]
    sends for a pushed array element is the driver's business; both
    possibilities are modelled: the whole array as the copy has it, or the
    pushed element alone, appended by the store to the array it holds. *)
Module Interleaving.

Inductive SaveSemantics := WholeDocument | ArrayPush.

Definition push_stored (this : Message) (name : string) (now : nat)
    (docs : list Message) : list Message :=
  map (λ d, if String.eqb (_id d) (_id this)
            then set_updatedAt now (set_readBy (readBy d ++ [name])%list d)
            else d) docs.

(** [save()] sending the pushed element only. *)
Definition save_push (this : Message) (name : string) : M Message :=
  let* now := new_Date in
  let this' := set_updatedAt now this in
  store_write (push_stored this name now) this';;
  ret this'.

(** [markAsRead] on the copy [this], under either semantics of [save()]. *)
Definition markAsRead_as (sem : SaveSemantics) (this : Message)
    (userName : option string) : M Message :=
  match sem with
  | WholeDocument => markAsRead this userName
  | ArrayPush =>
      match markAsRead_push (readBy this) userName, userName with
      | Some readBy', Some name => save_push (set_readBy readBy' this) name
      | _, _ => ret this
      end
  end.

(** A call in flight: its user, the copy it has read, whether it is done. *)
Record Call := mkCall {
  caller : option string;
  copy : option Message;
  finished : bool;
}.

Inductive Action := Load (i : nat) | Mark (i : nat).

Definition act (sem : SaveSemantics) (messageId : string)
    (st : list Call * World) (a : Action) : list Call * World :=
  let '(calls, w) := st in
  match a with
  | Load i =>
      match calls !! i with
      | Some c =>
          match copy c with
          | None =>
              (<[i := mkCall (caller c) (find_message messageId w) (finished c)]> calls, w)
          | Some _ => st
          end
      | None => st
      end
  | Mark i =>
      match calls !! i with
      | Some c =>
          match copy c, finished c with
          | Some this, false =>
              (<[i := mkCall (caller c) (copy c) true]> calls,
               snd (markAsRead_as sem this (caller c) w))
          | _, _ => st
          end
      | None => st
      end
  end.

Definition run (sem : SaveSemantics) (messageId : string)
    (schedule : list Action) (st : list Call * World) : list Call * World :=
  fold_left (act sem messageId) schedule st.

Definition start (callers : list string) : list Call :=
  map (λ u, mkCall (Some u) None false) callers.

(** The stored [readBy] of the message once the schedule has run. *)
Definition final_readBy (sem : SaveSemantics) (messageId : string)
    (callers : list string) (schedule : list Action) (w : World)
    : option (list string) :=
  readBy <$> find_message messageId
               (snd (run sem messageId schedule (start callers, w))).

End Interleaving.

(** ** The page the list route reads, and what it does to the store *)

(** The group's live documents, as [Message.find] and
    [Message.countDocuments] select them. *)
Definition live_messages (groupId : string) (w : World) : list Message :=
  List.filter (in_group_live groupId) (messages w).

(** The documents of page [page] (counted from 1) at [limit] per page. *)
Definition page_slice (groupId : string) (page limit : Z) (w : World)
    : list Message :=
  take (Z.to_nat limit)
       (drop (Z.to_nat ((page - 1) * limit))
             (sort_by_createdAt (live_messages groupId w))).

(** The world after [markAsRead(userName)] on [m], the write
    acknowledged. *)
Definition mark_world (userName : option string) (w : World) (m : Message)
    : World :=
  match markAsRead_push (readBy m) userName with
  | Some _ =>
      after_write (replace_doc (read_doc userName (clock w) m) (messages w))
                  (read_doc userName (clock w) m) w
  | None => w
  end.


(** The array after a mark-read by [name]: [name] is appended unless it is
    there. *)
Definition add_once (l : list string) (name : string) : list string :=
  if bool_decide (name ∈ l) then l else (l ++ [name])%list.

(** ** A small scenario for the examples

    Group G has the members U1, U2 and U4, group H has the single member U3.
    The tokens are the ones the login route signs.  Ids are ObjectIds in
    their 24-digit rendering; the messages have the ids the store hands out
    first, [oid 0] and [oid 1]. *)
Definition idU1 : string := "64a000000000000000000001".
Definition idU2 : string := "64a000000000000000000002".
Definition idU3 : string := "64a000000000000000000003".
Definition idU4 : string := "64a000000000000000000004".
Definition idG : string := "64b000000000000000000001".
Definition idH : string := "64b000000000000000000002".

Definition U1 : AuthUser := login_payload idU1 "user".
Definition U2 : AuthUser := login_payload idU2 "user".
Definition U3 : AuthUser := login_payload idU3 "user".
Definition U4 : AuthUser := login_payload idU4 "user".

Definition groupG : Group := mkGroup idG "general" [idU1; idU2; idU4] idU1.
Definition groupH : Group := mkGroup idH "private" [idU3] idU3.

Definition world0 : World := mkWorld [] [groupG; groupH] [] [] 10%nat 0%nat.

(** The message U1 posts to G over HTTP, and the world after that request
    (at time 20). *)
Definition hello : Message :=
  mkMessage (oid 0) None None (Some "hello") idG (Some idU1) None "text" None
    None None [idU1] false None false None None 10%nat 10%nat.

Definition world1 : World :=
  mkWorld [hello] [groupG; groupH]
    [Stored hello; Emitted idG "newMessage" (PMessage hello)] [] 20%nat 1%nat.

(** A message U3 posted to H, and a world holding both messages. *)
Definition secret : Message :=
  mkMessage (oid 1) None None (Some "for H only") idH (Some idU3) None "text"
    None None None [idU3] false None false None None 15%nat 15%nat.

Definition world2 : World :=
  mkWorld [hello; secret] [groupG; groupH] [] [] 20%nat 2%nat.

(** 120 live messages of G, the n-th created at time n, stored newest
    first. *)
Definition nth_message (n : nat) : Message :=
  mkMessage (oid n) None None (Some "m") idG (Some idU1) None "text" None
    None None [idU1] false None false None None n n.

Definition world120 : World :=
  mkWorld (map nth_message (rev (seq 0 120))) [groupG; groupH] [] [] 200%nat
    120%nat.

(** U2 with a token that carries a display name. *)
Definition Ann : AuthUser := mkAuthUser idU2 (Some "user") (Some "Ann").

(** * The rest of the service *)

(** The ids of the stored messages, in store order. *)
Definition message_ids (w : World) : list string := map _id (messages w).

(** ** routes/group.js

    The group routes read and write the Group collection.  A write to it
    takes its verdict from [faults] like a write of a message; the trace
    keeps to the effects on messages, rooms and logs.  Only the update route
    has a [try]/[catch]: in the other routes a rejected write, or a property
    read on [null], leaves the handler by a throw. *)

Definition set_groups (gs : list Group) (w : World) : World :=
  mkWorld (messages w) gs (trace w) (faults w) (clock w) (oidgen w).

Definition group_write (commit : list Group → list Group) : M unit :=
  λ w, let w' := set_faults (tail (faults w)) w in
       if next_write_ok w
       then (Returned tt, set_groups (commit (groups w)) w')
       else (Thrown "store write failed", w').

(** The collection after the group with the id of [g] was written as
    [g]. *)
Definition replace_group (g : Group) (gs : list Group) : list Group :=
  map (λ d, if String.eqb (g_id d) (g_id g) then g else d) gs.

(** [group.save()] on a group that was loaded from the store. *)
Definition Group_save (g : Group) : M unit := group_write (replace_group g).

(** The world after an acknowledged write that leaves [gs] in the Group
    collection. *)
Definition after_group_write (gs : list Group) (w : World) : World :=
  set_groups gs (set_faults (tail (faults w)) w).


(** [Group.create(fields)] *)
Definition Group_create (fields : string → Group) : M Group :=
  let* oid := ObjectId_new in
  group_write (λ gs, (gs ++ [fields oid])%list);;
  ret (fields oid).

(** [Group.deleteOne({ _id: id })]: the first group with that id goes. *)
Fixpoint remove_first_group (id : string) (gs : list Group) : list Group :=
  match gs with
  | [] => []
  | g :: rest =>
      if String.eqb (g_id g) id then rest else g :: remove_first_group id rest
  end.

Definition Group_deleteOne (id : string) : M unit :=
  group_write (remove_first_group id).

(** [Group.find(query)] *)
Definition Group_find (query : Group → bool) : M (list Group) :=
  λ w, (Returned (List.filter query (groups w)), w).

Definition with_name (name : string) (g : Group) : Group :=
  mkGroup (g_id g) name (members g) (creator g).
Definition with_members (ms : list string) (g : Group) : Group :=
  mkGroup (g_id g) (g_name g) ms (creator g).
Definition with_creator (c : string) (g : Group) : Group :=
  mkGroup (g_id g) (g_name g) (members g) c.

Inductive GroupBody :=
| GGroup (g : Group)
| GGroups (gs : list Group)
| GMessage (message : string)
| GError (error : string)
| GEmpty.

Record GroupResponse := mkGroupResponse {
  g_status : nat;
  g_body : GroupBody;
}.

(** POST / : the creator is the [creatorId] of the body. *)
Definition create_group (name creatorId : string) : M GroupResponse :=
  let* g := Group_create (λ oid, mkGroup oid name [creatorId] creatorId) in
  ret (mkGroupResponse 201 (GGroup g)).

(** PUT /:id : [if (name) ...; if (members) ...] — an array, even an empty
    one, is truthy. *)
Definition update_group (id : string) (name : option string)
    (members_ : option (list string)) : M GroupResponse :=
  try_catch
    (let* grp := Group_findById id in
     match grp with
     | None => ret (mkGroupResponse 404 (GMessage "Group not found"))
     | Some g =>
         let g1 := if truthy name then with_name (default "" name) g else g in
         let g2 := match members_ with
                   | Some ms => with_members ms g1
                   | None => g1
                   end in
         Group_save g2;;
         ret (mkGroupResponse 200 (GGroup g2))
     end)
    (λ err,
       log "error" "Error updating group:";;
       ret (mkGroupResponse 500 (GMessage "Internal server error"))).

(** GET / *)
Definition list_groups : M GroupResponse :=
  let* gs := Group_find (λ _, true) in
  ret (mkGroupResponse 200 (GGroups gs)).

(** GET /my : [Group.find({ members: userId })] *)
Definition my_groups (u : AuthUser) : M GroupResponse :=
  let* gs := Group_find (λ g, bool_decide (au_id u ∈ members g)) in
  ret (mkGroupResponse 200 (GGroups gs)).

(** POST /:id/join : no test of [group] before [group.members]. *)
Definition join_group (u : AuthUser) (id : string) : M GroupResponse :=
  let* grp := Group_findById id in
  match grp with
  | None => throw "TypeError: group is null"
  | Some g =>
      if negb (is_member u g)
      then
        let g' := with_members (members g ++ [au_id u])%list g in
        Group_save g';;
        ret (mkGroupResponse 200 (GGroup g'))
      else ret (mkGroupResponse 200 (GGroup g))
  end.

(** POST /:id/leave *)
Definition leave_group (u : AuthUser) (id : string) : M GroupResponse :=
  let* grp := Group_findById id in
  match grp with
  | None => ret (mkGroupResponse 404 (GError "Group not found"))
  | Some g =>
      if negb (truthy (Some (creator g)))
      then ret (mkGroupResponse 400
                  (GError "Group creator information is missing"))
      else
        let g' :=
          with_members
            (List.filter (λ i, negb (String.eqb i (au_id u))) (members g)) g in
        Group_save g';;
        ret (mkGroupResponse 200 (GGroup g'))
  end.


(** The three tests the delete and the transfer route start with. *)
Definition owner_gate (u : AuthUser) (grp : option Group)
    : GroupResponse + Group :=
  match grp with
  | None => inl (mkGroupResponse 404 (GError "Group not found"))
  | Some g =>
      if negb (truthy (Some (creator g)))
      then inl (mkGroupResponse 400
                  (GError "Group creator information is missing"))
      else if negb (String.eqb (creator g) (au_id u))
      then inl (mkGroupResponse 403
                  (GError "You are not authorized to perform this action"))
      else inr g
  end.

(** DELETE /:id *)
Definition delete_group (u : AuthUser) (id : string) : M GroupResponse :=
  let* grp := Group_findById id in
  match owner_gate u grp with
  | inl refusal => ret refusal
  | inr g =>
      Group_deleteOne id;;
      ret (mkGroupResponse 204 GEmpty)
  end.

(** POST /:id/transfer *)
Definition transfer_group (u : AuthUser) (id newOwnerId : string)
    : M GroupResponse :=
  let* grp := Group_findById id in
  match owner_gate u grp with
  | inl refusal => ret refusal
  | inr g =>
      let g' := with_creator newOwnerId g in
      Group_save g';;
      ret (mkGroupResponse 200 (GGroup g'))
  end.

(** The status of a group route's answer (0 when the handler threw). *)
Definition g_status_of (r : Outcome GroupResponse * World) : nat :=
  match fst r with
  | Returned resp => g_status resp
  | Thrown _ => 0%nat
  end.

(** ** middleware/auth.js and middleware/authorize.js *)

(** [s.split(sep)] for a one-character separator. *)
Fixpoint split (sep : ascii) (s : string) : list string :=
  match s with
  | EmptyString => [EmptyString]
  | String a s' =>
      if Ascii.eqb a sep then EmptyString :: split sep s'
      else match split sep s' with
           | h :: t => String a h :: t
           | [] => [String a EmptyString]
           end
  end.

(** [arr[1]] *)
Definition second (arr : list string) : option string := arr !! 1%nat.

(** What a middleware does: answer, or hand the request on. *)
Inductive Passed :=
| Next (user : AuthUser)
| Refused (code : nat) (message : string).

(** [authMiddleware]; [verify] is [jwt.verify(token, JWT_SECRET)], [None]
    when it throws, as it does on a token that is [undefined]. *)
Definition authMiddleware (verify : string → option AuthUser)
    (authorization : option string) : Passed :=
  if negb (truthy authorization)
     || negb (String.prefix "Bearer " (default "" authorization))
  then Refused 401 "Missing or invalid auth token"
  else
    match second (split " " (default "" authorization)) with
    | Some token =>
        match verify token with
        | Some decoded => Next decoded
        | None => Refused 401 "Invalid or expired token"
        end
    | None => Refused 401 "Invalid or expired token"
    end.

(** [authorize(...allowedRoles)] *)
Definition authorize (allowedRoles : list string) (u : AuthUser) : Passed :=
  match au_role u with
  | Some role =>
      if bool_decide (role ∈ allowedRoles) then Next u
      else Refused 403 "Forbidden: insufficient role"
  | None => Refused 403 "Forbidden: insufficient role"
  end.


(** A document without its read state: every field but [readBy] and
    [updatedAt]. *)
Definition forget_read_state (m : Message) : Message :=
  set_updatedAt 0%nat (set_readBy [] m).


(** The query [{ id: data.messageId }] of the read-receipt handler. *)
Definition has_logical_id (messageId : string) (m : Message) : bool :=
  bool_decide (id_ m = Some messageId).


(** [s] has no character [sep]. *)
Fixpoint lacks (sep : ascii) (s : string) : bool :=
  match s with
  | EmptyString => true
  | String a s' => negb (Ascii.eqb a sep) && lacks sep s'
  end.

(** What [authMiddleware] does with the outcome of [jwt.verify]. *)
Definition verified (decoded : option AuthUser) : Passed :=
  match decoded with
  | Some u => Next u
  | None => Refused 401 "Invalid or expired token"
  end.

(** ** routes/upload.js: GET /presigned-upload-url

    [uuid] is the value of [uuidv4()], [bucket] and [region] are the
    environment's S3_BUCKET_NAME and AWS_REGION, and [sign bucket key
    contentType] is [getSignedUrl] on the PutObjectCommand, [None] when it
    throws. *)
Inductive UploadAnswer :=
| UploadUrls (uploadURL fileURL : string)
| UploadMessage (code : nat) (message : string).

(** [`${x}`] for a value that may be undefined. *)
Definition interpolate (x : option string) : string := default "undefined" x.

Definition upload_key (uuid : string) (fileType : string) : string :=
  "uploads/" +:+ uuid +:+ "." +:+ interpolate (second (split "/" fileType)).

Definition presigned_upload_url (uuid bucket region : string)
    (sign : string → string → string → option string)
    (fileType : option string) : UploadAnswer :=
  if negb (truthy fileType)
  then UploadMessage 400 "Missing fileType query param"
  else
    let fileType' := default "" fileType in
    let key := upload_key uuid fileType' in
    match sign bucket key fileType' with
    | Some uploadURL =>
        UploadUrls uploadURL
          ("https://" +:+ bucket +:+ ".s3." +:+ region +:+ ".amazonaws.com/"
           +:+ key)
    | None => UploadMessage 500 "Failed to generate upload URL"
    end.


(** * Properties of the store and of the handlers *)

(** ** The scenario is one the handlers produce *)

(** U1 posting "hello" to G in the empty store creates [hello] and emits it
    to the room of G; U3, not a member, is answered 403. *)
Example oid_renders_24_digits :
  oid 0 = "000000000000000000000000" ∧ oid 119 = "000000000000000000000119".
Proof. split; reflexivity. Qed.

Example world0_post_hello :
  let r := post_message U1 idG (Some "hello") None None None world0 in
  fst r = Returned (mkResponse 201 (BMessage hello))
  ∧ messages (snd r) = messages world1 ∧ trace (snd r) = trace world1
  ∧ status_of (post_message U3 idG (Some "hello") None None None world0)
    = 403%nat.
Proof. repeat split. Qed.

(** ** Queries *)

Lemma find_None_iff {A} (f : A → bool) (l : list A) :
  List.find f l = None ↔ ∀ x, x ∈ l → f x = false.
Proof.
  induction l as [|a l IH]; simpl.
  - split; [intros _ x Hx; inversion Hx | done].
  - destruct (f a) eqn:Hfa.
    + split; [done |]. intros H. specialize (H a (list_elem_of_here a l)).
      congruence.
    + rewrite IH. split.
      * intros H x Hx. apply elem_of_cons in Hx as [-> | Hx]; auto.
      * intros H x Hx. apply H. by right.
Qed.

Lemma find_Some_elem {A} (f : A → bool) (l : list A) (x : A) :
  List.find f l = Some x → x ∈ l ∧ f x = true.
Proof.
  intros H. apply find_some in H as [Hin Hf].
  split; [by apply list_elem_of_In | done].
Qed.


Lemma eqb_true (a b : string) : String.eqb a b = true ↔ a = b.
Proof. apply String.eqb_eq. Qed.

Lemma is_own_live_true messageId groupId userId m :
  is_own_live messageId groupId userId m = true ↔
  _id m = messageId ∧ group m = groupId ∧ sender m = Some userId
  ∧ deleted m = false.
Proof.
  unfold is_own_live.
  rewrite !andb_true_iff, !eqb_true, bool_decide_eq_true, negb_true_iff.
  tauto.
Qed.


Lemma in_group_live_true groupId m :
  in_group_live groupId m = true ↔ group m = groupId ∧ deleted m = false.
Proof.
  unfold in_group_live. rewrite andb_true_iff, eqb_true, negb_true_iff. tauto.
Qed.

(** After [replace_doc m'], looking up the id of [m'] gives [m'], provided
    the id was in the store. *)
Lemma find_by_id_replace_doc m' docs :
  (∃ d, d ∈ docs ∧ _id d = _id m') →
  List.find (λ d, String.eqb (_id d) (_id m')) (replace_doc m' docs) = Some m'.
Proof.
  induction docs as [|a docs IH]; intros (d & Hd & Hid).
  - inversion Hd.
  - simpl. destruct (String.eqb (_id a) (_id m')) eqn:Ea.
    + by rewrite String.eqb_refl.
    + rewrite Ea. apply IH. apply elem_of_cons in Hd as [-> | Hd].
      * apply eqb_true in Hid. congruence.
      * eauto.
Qed.

(** Documents with another id are not touched by [replace_doc]. *)
Lemma find_other_replace_doc m' docs i :
  i ≠ _id m' →
  List.find (λ d, String.eqb (_id d) i) (replace_doc m' docs)
  = List.find (λ d, String.eqb (_id d) i) docs.
Proof.
  intros Hne. induction docs as [|a docs IH]; [done |]. simpl.
  destruct (String.eqb (_id a) (_id m')) eqn:Ea.
  - apply eqb_true in Ea.
    assert (String.eqb (_id m') i = false) as -> by (apply String.eqb_neq; congruence).
    assert (String.eqb (_id a) i = false) as -> by (apply String.eqb_neq; congruence).
    done.
  - by rewrite IH.
Qed.

(** ** The outcome of a save *)

Lemma save_ok this w :
  next_write_ok w = true →
  save this w =
    (Returned (set_updatedAt (clock w) this),
     after_write (replace_doc (set_updatedAt (clock w) this) (messages w))
                 (set_updatedAt (clock w) this) w).
Proof.
  intros Hok. unfold save, bind, new_Date, store_write, ret. by rewrite Hok.
Qed.

Lemma save_rejected this w :
  next_write_ok w = false →
  save this w = (Thrown "store write failed", after_rejection w).
Proof.
  intros Hok. unfold save, bind, new_Date, store_write, ret. by rewrite Hok.
Qed.

Lemma insert_ok this w :
  next_write_ok w = true →
  insert this w =
    (Returned (set_timestamps (clock w) this),
     after_write (messages w ++ [set_timestamps (clock w) this])
                 (set_timestamps (clock w) this) w).
Proof.
  intros Hok. unfold insert, bind, new_Date, store_write, ret. by rewrite Hok.
Qed.

Lemma insert_rejected this w :
  next_write_ok w = false →
  insert this w = (Thrown "store write failed", after_rejection w).
Proof.
  intros Hok. unfold insert, bind, new_Date, store_write, ret. by rewrite Hok.
Qed.

(** ** PUT /:groupId/messages/:messageId *)

Lemma put_message_404 u groupId messageId newText w :
  List.find (is_own_live messageId groupId (au_id u)) (messages w) = None →
  put_message u groupId messageId newText w =
    (Returned (mkResponse 404 (BError "Message not found or unauthorized")), w).
Proof.
  intros Hf. unfold put_message, try_catch, bind, Message_findOne.
  by rewrite Hf.
Qed.

Lemma put_message_200 u groupId messageId newText w m :
  List.find (is_own_live messageId groupId (au_id u)) (messages w) = Some m →
  next_write_ok w = true →
  put_message u groupId messageId newText w =
    (Returned (mkResponse 200 (BMessage (edited_doc newText (clock w) m))),
     record (Emitted groupId "messageEdited"
               (PMessage (edited_doc newText (clock w) m)))
       (after_write (replace_doc (edited_doc newText (clock w) m) (messages w))
          (edited_doc newText (clock w) m) w)).
Proof.
  intros Hf Hok. unfold put_message, try_catch, bind, Message_findOne.
  rewrite Hf. unfold edit, bind, new_Date. rewrite save_ok by done.
  reflexivity.
Qed.

Lemma put_message_500 u groupId messageId newText w m :
  List.find (is_own_live messageId groupId (au_id u)) (messages w) = Some m →
  next_write_ok w = false →
  put_message u groupId messageId newText w =
    (Returned (mkResponse 500 (BError "Failed to edit message")),
     record (Logged "error" "Error editing message:") (after_rejection w)).
Proof.
  intros Hf Hok. unfold put_message, try_catch, bind, Message_findOne.
  rewrite Hf. unfold edit, bind, new_Date. rewrite save_rejected by done.
  reflexivity.
Qed.





(** ** DELETE /:groupId/messages/:messageId *)

Lemma delete_message_404 u groupId messageId w :
  List.find (is_own_live messageId groupId (au_id u)) (messages w) = None →
  delete_message u groupId messageId w =
    (Returned (mkResponse 404 (BError "Message not found or unauthorized")), w).
Proof.
  intros Hf. unfold delete_message, try_catch, bind, Message_findOne.
  by rewrite Hf.
Qed.

Lemma delete_message_200 u groupId messageId w m :
  List.find (is_own_live messageId groupId (au_id u)) (messages w) = Some m →
  next_write_ok w = true →
  delete_message u groupId messageId w =
    (Returned (mkResponse 200 BSuccess),
     record (Emitted groupId "messageDeleted" (PDeleted messageId (au_id u)))
       (after_write
          (replace_doc (deleted_doc (au_id u) (clock w) m) (messages w))
          (deleted_doc (au_id u) (clock w) m) w)).
Proof.
  intros Hf Hok. unfold delete_message, try_catch, bind, Message_findOne.
  rewrite Hf. unfold softDelete. rewrite save_ok by done. reflexivity.
Qed.

Lemma delete_message_500 u groupId messageId w m :
  List.find (is_own_live messageId groupId (au_id u)) (messages w) = Some m →
  next_write_ok w = false →
  delete_message u groupId messageId w =
    (Returned (mkResponse 500 (BError "Failed to delete message")),
     record (Logged "error" "Error deleting message:") (after_rejection w)).
Proof.
  intros Hf Hok. unfold delete_message, try_catch, bind, Message_findOne.
  rewrite Hf. unfold softDelete. rewrite save_rejected by done. reflexivity.
Qed.



(** ** POST /:groupId/messages *)

Lemma post_message_no_group u groupId c t md r w :
  find_group groupId w = None →
  post_message u groupId c t md r w
  = (Returned (mkResponse 404 (BError "Group not found")), w).
Proof.
  intros Hg. unfold post_message, try_catch, bind, Group_findById.
  unfold find_group in Hg. by rewrite Hg.
Qed.

Lemma post_message_not_member u groupId c t md r w g :
  find_group groupId w = Some g → is_member u g = false →
  post_message u groupId c t md r w
  = (Returned (mkResponse 403 (BError "You are not a member of this group")), w).
Proof.
  intros Hg Hm. unfold post_message, try_catch, bind, Group_findById.
  unfold find_group in Hg. by rewrite Hg, Hm.
Qed.

Lemma post_message_no_parent u groupId c t md r w g :
  find_group groupId w = Some g → is_member u g = true →
  parent_ok r groupId w = false →
  post_message u groupId c t md r w
  = (Returned (mkResponse 404 (BError "Parent message not found")), w).
Proof.
  intros Hg Hm Hp. unfold post_message, try_catch, bind, Group_findById.
  unfold find_group in Hg. rewrite Hg, Hm. simpl.
  unfold parent_ok in Hp. apply orb_false_iff in Hp as [Ht Hp].
  apply negb_false_iff in Ht. rewrite Ht. unfold Message_findOne.
  simpl. by rewrite Hp.
Qed.

Lemma post_message_created u groupId c t md r w g :
  find_group groupId w = Some g → is_member u g = true →
  parent_ok r groupId w = true → next_write_ok w = true →
  let m := posted_doc u groupId c t md r (oid (oidgen w)) (clock w) in
  post_message u groupId c t md r w
  = (Returned (mkResponse 201 (BMessage m)),
     record (Emitted groupId "newMessage" (PMessage m))
       (after_write (messages w ++ [m]) m (set_oidgen (S (oidgen w)) w))).
Proof.
  intros Hg Hm Hp Hok m. unfold post_message, try_catch, bind, Group_findById.
  unfold find_group in Hg. rewrite Hg, Hm. simpl.
  unfold parent_ok in Hp.
  assert (Hcreate :
    Message_create (λ oid,
        mkMessage oid None None c groupId (Some (au_id u)) None
          (default "text" t) None None md [au_id u] false None false None r
          0%nat 0%nat) w
    = (Returned m, after_write (messages w ++ [m]) m (set_oidgen (S (oidgen w)) w))).
  { unfold Message_create, bind, ObjectId_new. by rewrite insert_ok. }
  destruct (truthy r) eqn:Ht; simpl in *.
  - unfold Message_findOne. simpl. rewrite Hp. simpl. by rewrite Hcreate.
  - by rewrite Hcreate.
Qed.

Lemma post_message_rejected u groupId c t md r w g :
  find_group groupId w = Some g → is_member u g = true →
  parent_ok r groupId w = true → next_write_ok w = false →
  post_message u groupId c t md r w
  = (Returned (mkResponse 500 (BError "Failed to send message")),
     record (Logged "error" "Error sending message:")
       (after_rejection (set_oidgen (S (oidgen w)) w))).
Proof.
  intros Hg Hm Hp Hok. unfold post_message, try_catch, bind, Group_findById.
  unfold find_group in Hg. rewrite Hg, Hm. simpl.
  unfold parent_ok in Hp.
  assert (Hcreate : ∀ fields,
    Message_create fields w
    = (Thrown "store write failed", after_rejection (set_oidgen (S (oidgen w)) w))).
  { intros fields. unfold Message_create, bind, ObjectId_new.
    by rewrite insert_rejected. }
  destruct (truthy r) eqn:Ht; simpl in *.
  - unfold Message_findOne. simpl. rewrite Hp. simpl. by rewrite Hcreate.
  - by rewrite Hcreate.
Qed.

(** ** socket.on('chat message') *)

Lemma on_chat_message_no_user data w :
  d_user data = None →
  on_chat_message data w
  = (Thrown "TypeError: data.user is undefined",
     record (Logged "info" "Message received for group:") w).
Proof. intros Hu. unfold on_chat_message, bind, log, effect. by rewrite Hu. Qed.

Lemma on_chat_message_saved data usr w :
  d_user data = Some usr → next_write_ok w = true →
  let m := chat_doc data usr (oid (oidgen w)) (clock w) in
  on_chat_message data w
  = (Returned tt,
     record (Emitted (d_groupId data) "chat message" (PChat data (clock w)))
       (record (Logged "info" "Message saved to database")
          (after_write (messages w ++ [m]) m
             (set_oidgen (S (oidgen w))
                (record (Logged "info" "Message received for group:") w))))).
Proof.
  intros Hu Hok m. unfold on_chat_message, bind, log, effect, try_catch.
  rewrite Hu. unfold ObjectId_new. simpl. by rewrite insert_ok.
Qed.

Lemma on_chat_message_rejected data usr w :
  d_user data = Some usr → next_write_ok w = false →
  on_chat_message data w
  = (Returned tt,
     record (Logged "error" "Error saving message:")
       (after_rejection
          (set_oidgen (S (oidgen w))
             (record (Logged "info" "Message received for group:") w)))).
Proof.
  intros Hu Hok. unfold on_chat_message, bind, log, effect, try_catch.
  rewrite Hu. unfold ObjectId_new. simpl. by rewrite insert_rejected.
Qed.

(** The five answers of the create route. *)
Lemma post_message_cases u groupId c t md r w :
  let m := posted_doc u groupId c t md r (oid (oidgen w)) (clock w) in
  let w0 := set_oidgen (S (oidgen w)) w in
  post_message u groupId c t md r w ∈
    [ (Returned (mkResponse 404 (BError "Group not found")), w);
      (Returned (mkResponse 403 (BError "You are not a member of this group")), w);
      (Returned (mkResponse 404 (BError "Parent message not found")), w);
      (Returned (mkResponse 500 (BError "Failed to send message")),
       record (Logged "error" "Error sending message:") (after_rejection w0)) ]
  ∨ (next_write_ok w = true
     ∧ post_message u groupId c t md r w
       = (Returned (mkResponse 201 (BMessage m)),
          record (Emitted groupId "newMessage" (PMessage m))
            (after_write (messages w ++ [m]) m w0))).
Proof.
  intros m w0.
  destruct (find_group groupId w) as [g|] eqn:Hg.
  2: { left. rewrite post_message_no_group by done. set_solver. }
  destruct (is_member u g) eqn:Hm.
  2: { left. rewrite (post_message_not_member _ _ _ _ _ _ _ g) by done.
       set_solver. }
  destruct (parent_ok r groupId w) eqn:Hp.
  2: { left. rewrite (post_message_no_parent _ _ _ _ _ _ _ g) by done.
       set_solver. }
  destruct (next_write_ok w) eqn:Hok.
  - right. split; [done |]. by apply (post_message_created _ _ _ _ _ _ _ g).
  - left. rewrite (post_message_rejected _ _ _ _ _ _ _ g) by done. set_solver.
Qed.




(** C3, on the code: a message created over HTTP is stored with
    [readBy = [req.user.id]]; a message created by the socket handler is
    stored with an empty [readBy] — the sender is not in it. *)
Theorem created_message_readBy :
  (∀ u groupId c t md r w m w',
     post_message u groupId c t md r w
     = (Returned (mkResponse 201 (BMessage m)), w') →
     messages w' = (messages w ++ [m])%list ∧ sender m = Some (au_id u)
     ∧ readBy m = [au_id u])
  ∧ (∀ data usr w,
       d_user data = Some usr → next_write_ok w = true →
       ∃ m w',
         on_chat_message data w = (Returned tt, w')
         ∧ messages w' = (messages w ++ [m])%list ∧ user m = Some usr
         ∧ readBy m = []).
Proof.
  split.
  - intros u groupId c t md r w m w' Hrun.
    destruct (post_message_cases u groupId c t md r w) as [Hc | [_ Hc]].
    + rewrite Hrun in Hc.
      repeat (apply elem_of_cons in Hc as [Hc | Hc]; [discriminate |]).
      inversion Hc.
    + rewrite Hrun in Hc. injection Hc as -> ->. done.
  - intros data usr w Hu Hok. eexists _, _. split.
    + by apply on_chat_message_saved.
    + done.
Qed.

Lemma created_message_readBy_witness :
  ∃ m w',
    on_chat_message
      (mkChatData (Some "c1") (Some "hello") idG
         (Some (mkUserSub idU1 (Some "Ann") (Some "ann@example.org")))
         None None None) world0
    = (Returned tt, w')
    ∧ messages w' = [m]
    ∧ user m = Some (mkUserSub idU1 (Some "Ann") (Some "ann@example.org"))
    ∧ readBy m = [].
Proof.
  apply (proj2 created_message_readBy
           (mkChatData (Some "c1") (Some "hello") idG
              (Some (mkUserSub idU1 (Some "Ann") (Some "ann@example.org")))
              None None None)
           (mkUserSub idU1 (Some "Ann") (Some "ann@example.org")) world0);
    reflexivity.
Defined.

(** ** The order of write and broadcast *)

Lemma emits_follow_store_sound acked es :
  emits_follow_store acked es = true →
  ∀ es1 room event p es2,
    es = (es1 ++ Emitted room event p :: es2)%list →
    acked = true ∨ ∃ m, Stored m ∈ es1.
Proof.
  revert acked. induction es as [|e es IH]; intros acked Hchk es1 room event p es2 Heq.
  - destruct es1; discriminate.
  - destruct es1 as [|e1 es1]; simpl in Heq; injection Heq as -> ->.
    + simpl in Hchk. apply andb_true_iff in Hchk as [-> _]. by left.
    + destruct e1; simpl in Hchk.
      * right. exists m. apply list_elem_of_here.
      * destruct (IH _ Hchk _ _ _ _ _ eq_refl) as [-> | [m Hm]]; [by left |].
        right. exists m. by apply list_elem_of_further.
      * apply andb_true_iff in Hchk as [-> _]. by left.
      * destruct (IH _ Hchk _ _ _ _ _ eq_refl) as [-> | [m Hm]]; [by left |].
        right. exists m. by apply list_elem_of_further.
Qed.

Lemma emits_follow_store_spec es :
  emits_follow_store false es = true → emit_only_after_store es.
Proof.
  intros Hchk es1 room event p es2 Heq.
  destruct (emits_follow_store_sound _ _ Hchk _ _ _ _ _ Heq) as [? | ?];
    [discriminate | done].
Qed.

(** What the create route appends to the trace. *)
Lemma post_message_effects u groupId c t md r w :
  let m := posted_doc u groupId c t md r (oid (oidgen w)) (clock w) in
  ∃ es,
    trace (snd (post_message u groupId c t md r w)) = (trace w ++ es)%list
    ∧ (es = []
       ∨ es = [StoreRejected; Logged "error" "Error sending message:"]
       ∨ (next_write_ok w = true
          ∧ es = [Stored m; Emitted groupId "newMessage" (PMessage m)])).
Proof.
  intros m.
  destruct (post_message_cases u groupId c t md r w) as [Hc | [Hok ->]].
  - repeat (apply elem_of_cons in Hc as [-> | Hc]);
      try (exists []; split; [by rewrite app_nil_r | by left]).
    + exists [StoreRejected; Logged "error" "Error sending message:"].
      split; [simpl; by rewrite <- app_assoc | right; by left].
    + inversion Hc.
  - exists [Stored m; Emitted groupId "newMessage" (PMessage m)].
    split; [simpl; by rewrite <- app_assoc | right; by right].
Qed.

(** What the 'chat message' handler appends to the trace. *)
Lemma on_chat_message_effects data w :
  ∃ es,
    trace (snd (on_chat_message data w)) = (trace w ++ es)%list
    ∧ ((es = [Logged "info" "Message received for group:"])
       ∨ (es = [Logged "info" "Message received for group:"; StoreRejected;
                Logged "error" "Error saving message:"])
       ∨ (next_write_ok w = true
          ∧ ∃ m, es = [Logged "info" "Message received for group:"; Stored m;
                       Logged "info" "Message saved to database";
                       Emitted (d_groupId data) "chat message"
                         (PChat data (createdAt m))])).
Proof.
  destruct (d_user data) as [usr|] eqn:Hu.
  - destruct (next_write_ok w) eqn:Hok.
    + rewrite (on_chat_message_saved _ usr) by done.
      exists [Logged "info" "Message received for group:";
              Stored (chat_doc data usr (oid (oidgen w)) (clock w));
              Logged "info" "Message saved to database";
              Emitted (d_groupId data) "chat message" (PChat data (clock w))].
      split; [simpl; by rewrite <- !app_assoc |].
      right. right. split; [done |].
      by exists (chat_doc data usr (oid (oidgen w)) (clock w)).
    + rewrite (on_chat_message_rejected _ usr) by done.
      exists [Logged "info" "Message received for group:"; StoreRejected;
              Logged "error" "Error saving message:"].
      split; [simpl; by rewrite <- !app_assoc |]. right. by left.
  - rewrite on_chat_message_no_user by done.
    exists [Logged "info" "Message received for group:"].
    split; [reflexivity |]. by left.
Qed.

Ltac no_such_effect H :=
  repeat (apply elem_of_cons in H as [H | H]; [discriminate |]);
  inversion H.

(** C4: on both send paths every broadcast follows an acknowledged store
    write; when the write is rejected the handler emits nothing and logs the
    error; and on a store that rejects the next write no send emits
    anything. *)
Theorem send_broadcasts_after_write :
  (∀ u groupId c t md r w,
     ∃ es,
       trace (snd (post_message u groupId c t md r w)) = (trace w ++ es)%list
       ∧ emit_only_after_store es ∧ rejected_means_silent es
       ∧ (next_write_ok w = false →
          ∀ room event p, Emitted room event p ∉ es))
  ∧ (∀ data w,
       ∃ es,
         trace (snd (on_chat_message data w)) = (trace w ++ es)%list
         ∧ emit_only_after_store es ∧ rejected_means_silent es
         ∧ (next_write_ok w = false →
            ∀ room event p, Emitted room event p ∉ es)).
Proof.
  split.
  - intros u groupId c t md r w.
    destruct (post_message_effects u groupId c t md r w) as (es & Htr & Hes).
    exists es. split; [done |].
    destruct Hes as [-> | [-> | [Hok ->]]].
    + split; [by apply emits_follow_store_spec |]. split.
      * intros H. inversion H.
      * intros _ room event p H. inversion H.
    + split; [by apply emits_follow_store_spec |]. split.
      * intros _. split.
        -- intros room event p H. no_such_effect H.
        -- eexists. apply list_elem_of_further, list_elem_of_here.
      * intros _ room event p H. no_such_effect H.
    + split; [by apply emits_follow_store_spec |]. split.
      * intros H. no_such_effect H.
      * intros Hno. congruence.
  - intros data w.
    destruct (on_chat_message_effects data w) as (es & Htr & Hes).
    exists es. split; [done |].
    destruct Hes as [-> | [-> | [Hok [m ->]]]].
    + split; [by apply emits_follow_store_spec |]. split.
      * intros H. no_such_effect H.
      * intros _ room event p H. no_such_effect H.
    + split; [by apply emits_follow_store_spec |]. split.
      * intros _. split.
        -- intros room event p H. no_such_effect H.
        -- eexists. do 2 apply list_elem_of_further. apply list_elem_of_here.
      * intros _ room event p H. no_such_effect H.
    + split; [by apply emits_follow_store_spec |]. split.
      * intros H. no_such_effect H.
      * intros Hno. congruence.
Qed.

Lemma send_broadcasts_after_write_witness :
  let w := set_faults [true] world1 in
  (∃ es,
     trace (snd (post_message U2 idG (Some "lost") None None None w))
     = (trace w ++ es)%list
     ∧ ∀ room event p, Emitted room event p ∉ es)
  ∧ (∃ es,
       trace (snd (on_chat_message
                     (mkChatData (Some "c1") (Some "lost") idG
                        (Some (mkUserSub idU2 None None)) None None None) w))
       = (trace w ++ es)%list
       ∧ ∀ room event p, Emitted room event p ∉ es).
Proof.
  intros w. split.
  - destruct (proj1 send_broadcasts_after_write U2 idG (Some "lost") None None
                None w) as (es & Htr & _ & _ & Hsilent).
    exists es. split; [exact Htr | apply Hsilent; reflexivity].
  - destruct (proj2 send_broadcasts_after_write
                (mkChatData (Some "c1") (Some "lost") idG
                   (Some (mkUserSub idU2 None None)) None None None) w)
      as (es & Htr & _ & _ & Hsilent).
    exists es. split; [exact Htr | apply Hsilent; reflexivity].
Defined.

(** ** POST /:groupId/messages/:messageId/read *)

Lemma markAsRead_push_Some readBy name :
  name ≠ "" → name ∉ readBy →
  markAsRead_push readBy (Some name) = Some (readBy ++ [name])%list.
Proof.
  intros Hne Hin. unfold markAsRead_push, truthy, includes.
  assert (String.eqb name "" = false) as -> by by apply String.eqb_neq.
  by rewrite bool_decide_eq_false_2.
Qed.

Lemma markAsRead_push_None readBy name :
  name ∈ readBy → markAsRead_push readBy (Some name) = None.
Proof.
  intros Hin. unfold markAsRead_push, truthy, includes.
  rewrite (bool_decide_eq_true_2 _ Hin). by rewrite andb_false_r.
Qed.

Lemma markAsRead_ok this userName w :
  next_write_ok w = true →
  markAsRead this userName w =
    (Returned (read_doc userName (clock w) this),
     match markAsRead_push (readBy this) userName with
     | Some _ =>
         after_write
           (replace_doc (read_doc userName (clock w) this) (messages w))
           (read_doc userName (clock w) this) w
     | None => w
     end).
Proof.
  intros Hok. unfold markAsRead, read_doc.
  destruct (markAsRead_push (readBy this) userName); [| done].
  by rewrite save_ok.
Qed.

Lemma read_message_200 u groupId messageId w g m :
  find_group groupId w = Some g → is_member u g = true →
  find_message messageId w = Some m → next_write_ok w = true →
  let m' := read_doc (Some (au_id u)) (clock w) m in
  read_message u groupId messageId w =
    (Returned (mkResponse 200 BSuccess),
     record (Emitted groupId "messageRead" (PRead messageId (au_id u)))
       match markAsRead_push (readBy m) (Some (au_id u)) with
       | Some _ => after_write (replace_doc m' (messages w)) m' w
       | None => w
       end).
Proof.
  intros Hg Hm Hf Hok m'.
  unfold read_message, try_catch, bind, Group_findById.
  unfold find_group in Hg. rewrite Hg, Hm. simpl.
  unfold Message_findById, Message_findOne. unfold find_message in Hf.
  rewrite Hf. by rewrite markAsRead_ok.
Qed.

(** After a mark-read request the addressed document, read back by its id,
    is the marked one. *)
Lemma read_message_find u groupId messageId w g m :
  find_group groupId w = Some g → is_member u g = true →
  find_message messageId w = Some m → next_write_ok w = true →
  find_message messageId (snd (read_message u groupId messageId w))
  = Some (read_doc (Some (au_id u)) (clock w) m).
Proof.
  intros Hg Hm Hf Hok. rewrite (read_message_200 _ _ _ _ g m) by done.
  unfold read_doc.
  destruct (markAsRead_push (readBy m) (Some (au_id u))) as [l|] eqn:E; [| done].
  unfold find_message in *. simpl.
  apply find_Some_elem in Hf as [Hin Hid]. apply eqb_true in Hid.
  rewrite <- Hid.
  change (_id m) with (_id (set_updatedAt (clock w) (set_readBy l m))) at 1.
  apply find_by_id_replace_doc. exists m. auto.
Qed.

(** C10: the mark-read route checks membership against the group of the
    URL and then finds the message by its id alone.  A member of the URL's
    group who is not a member of the message's group is answered 200, is
    added to the message's [readBy], and the messageRead event goes to the
    room of the URL's group. *)
Theorem read_message_crosses_groups u groupId messageId w g m :
  find_group groupId w = Some g → is_member u g = true →
  find_message messageId w = Some m →
  group m ≠ groupId →
  (∀ g', g' ∈ groups w → g_id g' = group m → is_member u g' = false) →
  au_id u ≠ "" → au_id u ∉ readBy m → next_write_ok w = true →
  ∃ m' w',
    read_message u groupId messageId w = (Returned (mkResponse 200 BSuccess), w')
    ∧ find_message messageId w' = Some m'
    ∧ group m' = group m ∧ readBy m' = (readBy m ++ [au_id u])%list
    ∧ trace w' = (trace w ++ [Stored m';
                   Emitted groupId "messageRead" (PRead messageId (au_id u))])%list.
Proof.
  intros Hg Hm Hf _ _ Hne Hnotin Hok.
  pose proof (read_message_find u groupId messageId w g m Hg Hm Hf Hok) as Hfind.
  rewrite (read_message_200 _ _ _ _ g m) in * by done.
  unfold read_doc in *. rewrite markAsRead_push_Some in * by done.
  eexists _, _. split; [reflexivity |]. split; [exact Hfind |].
  repeat split. simpl. by rewrite <- app_assoc.
Qed.

Lemma read_message_crosses_groups_witness :
  ∃ m' w',
    read_message U1 idG (oid 1) world2 = (Returned (mkResponse 200 BSuccess), w')
    ∧ find_message (oid 1) w' = Some m'
    ∧ group m' = idH ∧ readBy m' = [idU3; idU1]
    ∧ trace w' = [Stored m'; Emitted idG "messageRead" (PRead (oid 1) idU1)].
Proof.
  apply (read_message_crosses_groups U1 idG (oid 1) world2
           groupG secret);
    try reflexivity; try discriminate.
  - intros g' Hg' Hid.
    apply elem_of_cons in Hg' as [-> | Hg']; [discriminate |].
    apply list_elem_of_singleton in Hg' as ->. reflexivity.
  - intros H. apply list_elem_of_singleton in H. discriminate.
Defined.

(** ** Mark-read calls one after another *)






(** The same three calls served one after another end with each user once,
    under either semantics of [save()]. *)
Example sequential_reads_agree :
  let schedule := [Interleaving.Load 0; Interleaving.Mark 0;
                   Interleaving.Load 1; Interleaving.Mark 1;
                   Interleaving.Load 2; Interleaving.Mark 2] in
  Interleaving.final_readBy Interleaving.WholeDocument (oid 0) [idU2; idU4; idU4]
    schedule world1 = Some [idU1; idU2; idU4]
  ∧ Interleaving.final_readBy Interleaving.ArrayPush (oid 0) [idU2; idU4; idU4]
      schedule world1 = Some [idU1; idU2; idU4]
  ∧ readBy <$> find_message (oid 0) (read_all [U2; U4; U4] idG (oid 0) world1)
    = Some [idU1; idU2; idU4].
Proof. repeat split. Qed.



(** ** GET /:groupId/messages *)

Global Instance createdAt_le_trans : Transitive createdAt_le.
Proof. intros a b c. unfold createdAt_le. lia. Qed.

Lemma sort_by_createdAt_Permutation l : sort_by_createdAt l ≡ₚ l.
Proof. apply merge_sort_Permutation. Qed.

Lemma sort_by_createdAt_StronglySorted l :
  StronglySorted createdAt_le (sort_by_createdAt l).
Proof. apply StronglySorted_merge_sort; apply _. Qed.


Lemma elem_of_filter {A} (f : A → bool) (l : list A) (x : A) :
  x ∈ List.filter f l ↔ x ∈ l ∧ f x = true.
Proof. rewrite !list_elem_of_In. apply filter_In. Qed.

Lemma skip_limit_page {A} (page limit : Z) (docs : list A) :
  1 ≤ page → 1 ≤ limit →
  skip_limit ((page - 1) * limit) limit docs
  = Some (take (Z.to_nat limit) (drop (Z.to_nat ((page - 1) * limit)) docs)).
Proof.
  intros Hp Hl. unfold skip_limit.
  assert (((page - 1) * limit <? 0) = false) as -> by (apply Z.ltb_ge; nia).
  assert ((limit =? 0) = false) as -> by (apply Z.eqb_neq; lia).
  by rewrite Z.abs_eq by lia.
Qed.

Lemma StronglySorted_slice {A} (R : relation A) (l : list A) n k :
  StronglySorted R l → StronglySorted R (take n (drop k l)).
Proof.
  intros Hl. rewrite <- (take_drop k l) in Hl.
  apply StronglySorted_app_1_r in Hl.
  rewrite <- (take_drop n (drop k l)) in Hl.
  by apply StronglySorted_app_1_l in Hl.
Qed.

Lemma slice_sublist {A} (l : list A) n k : take n (drop k l) `sublist_of` l.
Proof. etrans; [apply sublist_take | apply sublist_drop]. Qed.

Lemma page_slice_live groupId page limit w m :
  m ∈ page_slice groupId page limit w →
  m ∈ messages w ∧ group m = groupId ∧ deleted m = false.
Proof.
  intros Hm. unfold page_slice in Hm.
  apply (sublist_subseteq _ _ (slice_sublist _ _ _)) in Hm.
  unfold sort_by_createdAt in Hm. rewrite merge_sort_Permutation in Hm.
  apply elem_of_filter in Hm as [Hin Hq].
  apply in_group_live_true in Hq. tauto.
Qed.

(** [read_doc] touches [readBy] and [updatedAt] only. *)
Lemma read_doc_frame userName now m :
  let m' := read_doc userName now m in
  _id m' = _id m ∧ id_ m' = id_ m ∧ text m' = text m ∧ content m' = content m
  ∧ group m' = group m ∧ sender m' = sender m ∧ user m' = user m
  ∧ type m' = type m ∧ mediaUrl m' = mediaUrl m ∧ mediaType m' = mediaType m
  ∧ metadata m' = metadata m ∧ deleted m' = deleted m
  ∧ deletedBy m' = deletedBy m ∧ edited m' = edited m
  ∧ editedAt m' = editedAt m ∧ replyTo m' = replyTo m
  ∧ createdAt m' = createdAt m.
Proof.
  unfold read_doc. by destruct (markAsRead_push (readBy m) userName).
Qed.

(** The marking of a page, every write acknowledged. *)
Lemma Promise_all_marks userName found w :
  faults w = [] →
  Promise_all
    (map (λ message,
            if includes (readBy message) userName
            then ret message
            else markAsRead message userName) found) w
  = (Returned (map (read_doc userName (clock w)) found),
     fold_left (mark_world userName) found w).
Proof.
  revert w. induction found as [|m found IH]; intros w Hfaults; [done |].
  assert (Hok : next_write_ok w = true)
    by (unfold next_write_ok; by rewrite Hfaults).
  assert (Hone :
    (if includes (readBy m) userName then ret m else markAsRead m userName) w
    = (Returned (read_doc userName (clock w) m), mark_world userName w m)).
  { destruct (includes (readBy m) userName) eqn:Hinc.
    - unfold ret, read_doc, mark_world, markAsRead_push.
      destruct userName; [| done]. rewrite Hinc. by rewrite andb_false_r.
    - by rewrite markAsRead_ok. }
  cbn [map Promise_all fold_left]. rewrite Hone.
  assert (Hw : faults (mark_world userName w m) = []
               ∧ clock (mark_world userName w m) = clock w).
  { unfold mark_world. destruct (markAsRead_push (readBy m) userName); simpl;
      by rewrite ?Hfaults. }
  destruct Hw as [Hf' Hc']. rewrite IH by done. by rewrite Hc'.
Qed.

(** The answer of the list route to a member, for a page and a limit that
    are at least 1 and no write rejected. *)
Lemma get_messages_200 u groupId qpage qlimit w g :
  find_group groupId w = Some g → is_member u g = true →
  1 ≤ page_of qpage → 1 ≤ limit_of qlimit → faults w = [] →
  let slice := page_slice groupId (page_of qpage) (limit_of qlimit) w in
  let total := Z.of_nat (length (live_messages groupId w)) in
  get_messages u groupId qpage qlimit w
  = (Returned
       (mkResponse 200
          (BMessages (map (read_doc (au_name u) (clock w)) slice) total
             (page_of qpage) (ceil_div total (limit_of qlimit))
             (limit_of qlimit))),
     fold_left (mark_world (au_name u)) slice w).
Proof.
  intros Hg Hm Hp Hl Hfaults slice total.
  unfold get_messages, try_catch, bind, Group_findById.
  unfold find_group in Hg. rewrite Hg, Hm. simpl.
  unfold Message_find_page. rewrite skip_limit_page by done.
  unfold Message_countDocuments.
  fold (live_messages groupId w).
  fold (page_slice groupId (page_of qpage) (limit_of qlimit) w).
  by rewrite Promise_all_marks.
Qed.

Lemma ceil_div_bounds total limit :
  1 ≤ limit →
  limit * (ceil_div total limit - 1) < total ≤ limit * ceil_div total limit.
Proof.
  intros Hl. unfold ceil_div.
  pose proof (Z.div_mod (- total) limit ltac:(lia)) as Hdm.
  pose proof (Z.mod_pos_bound (- total) limit ltac:(lia)) as Hb.
  nia.
Qed.

(** C5: the list route answers a member, for a page and a limit that are at
    least 1, with the page of the group's live messages in ascending
    [createdAt] order: [limit] documents after the first [(page-1)*limit];
    [total] counts the group's live messages and
    [pages] is the ceiling of [total/limit]; no returned message is deleted;
    with 120 live messages, limit 50 and page 1 the answer holds 50 messages
    and [pages = 3]. *)
Theorem get_messages_page u groupId qpage qlimit w g :
  find_group groupId w = Some g → is_member u g = true →
  1 ≤ page_of qpage → 1 ≤ limit_of qlimit → faults w = [] →
  let page := page_of qpage in
  let limit := limit_of qlimit in
  let live := live_messages groupId w in
  ∃ sorted msgs pages w',
    get_messages u groupId qpage qlimit w
    = (Returned
         (mkResponse 200
            (BMessages msgs (Z.of_nat (length live)) page pages limit)), w')
    ∧ (∀ m, m ∈ live ↔ m ∈ messages w ∧ group m = groupId ∧ deleted m = false)
    ∧ sorted ≡ₚ live ∧ Sorted createdAt_le sorted
    ∧ msgs = map (read_doc (au_name u) (clock w))
               (take (Z.to_nat limit)
                  (drop (Z.to_nat ((page - 1) * limit)) sorted))
    ∧ Sorted createdAt_le msgs
    ∧ Forall (λ m, group m = groupId ∧ deleted m = false) msgs
    ∧ limit * (pages - 1) < Z.of_nat (length live) ≤ limit * pages
    ∧ (length live = 120%nat → limit = 50 → page = 1 →
       length msgs = 50%nat ∧ pages = 3).
Proof.
  intros Hg Hm Hp Hl Hfaults page limit live.
  exists (sort_by_createdAt live). eexists _, _, _.
  split; [by apply (get_messages_200 _ _ _ _ _ g) |].
  fold page limit live.
  change (page_slice groupId page limit w)
    with (take (Z.to_nat limit)
            (drop (Z.to_nat ((page - 1) * limit)) (sort_by_createdAt live))).
  pose proof (sort_by_createdAt_StronglySorted live) as Hss.
  repeat apply conj.
  - intros m. unfold live, live_messages. rewrite elem_of_filter.
    rewrite in_group_live_true. tauto.
  - apply sort_by_createdAt_Permutation.
  - by apply StronglySorted_Sorted.
  - reflexivity.
  - apply (Sorted_fmap _ createdAt_le createdAt_le).
    + intros x y Hxy. unfold createdAt_le in *.
      pose proof (read_doc_frame (au_name u) (clock w) x) as Hx.
      pose proof (read_doc_frame (au_name u) (clock w) y) as Hy.
      simpl in Hx, Hy.
      destruct Hx as (_&_&_&_&_&_&_&_&_&_&_&_&_&_&_&_&->).
      destruct Hy as (_&_&_&_&_&_&_&_&_&_&_&_&_&_&_&_&->). done.
    + apply StronglySorted_Sorted. by apply StronglySorted_slice.
  - apply Forall_forall. intros m' Hm'.
    apply list_elem_of_fmap in Hm' as (m & -> & Hin).
    apply (page_slice_live groupId page limit w) in Hin as (_ & Hgr & Hdel).
    pose proof (read_doc_frame (au_name u) (clock w) m) as Hf. simpl in Hf.
    destruct Hf as (_&_&_&_&->&_&_&_&_&_&_&->&_). done.
  - apply ceil_div_bounds. done.
  - apply ceil_div_bounds. done.
  - intros H120 H50 H1. split.
    + rewrite length_map, length_take, length_drop.
      unfold sort_by_createdAt. rewrite merge_sort_Permutation.
      rewrite H120, H50, H1. reflexivity.
    + rewrite H120, H50. reflexivity.
Qed.

Lemma get_messages_page_witness :
  ∃ msgs w',
    get_messages U1 idG (Some "1") (Some "50") world120
    = (Returned (mkResponse 200 (BMessages msgs 120 1 3 50)), w')
    ∧ length msgs = 50%nat ∧ Sorted createdAt_le msgs.
Proof.
  assert (Hlive : length (live_messages idG world120) = 120%nat)
    by (vm_compute; reflexivity).
  destruct (get_messages_page U1 idG (Some "1") (Some "50") world120 groupG)
    as (sorted & msgs & pages & w' & Hrun & _ & _ & _ & _ & Hs & _ & _ & Hex);
    [reflexivity | reflexivity | vm_compute; discriminate
    | vm_compute; discriminate | reflexivity |].
  destruct (Hex Hlive eq_refl eq_refl) as [Hlen ->].
  rewrite Hlive in Hrun. exists msgs, w'. repeat split; assumption.
Defined.

(** ** The list route marks what it returns *)














(** ** The pagination parameters *)













(** * Further properties of the message routes and the socket handlers *)

(** ** No handler removes or reorders documents *)

Lemma replace_doc_ids m docs : map _id (replace_doc m docs) = map _id docs.
Proof.
  induction docs as [|d docs IH]; [done |]. simpl. rewrite IH.
  destruct (String.eqb (_id d) (_id m)) eqn:E; [| done].
  apply eqb_true in E. by rewrite E.
Qed.

Lemma save_ids this w : message_ids (snd (save this w)) = message_ids w.
Proof.
  unfold save, bind, new_Date, store_write, ret, message_ids.
  destruct (next_write_ok w); simpl; [apply replace_doc_ids | done].
Qed.

Lemma insert_ids this w :
  message_ids (snd (insert this w)) = message_ids w
  ∨ message_ids (snd (insert this w)) = (message_ids w ++ [_id this])%list.
Proof.
  unfold insert, bind, new_Date, store_write, ret, message_ids.
  destruct (next_write_ok w); simpl; [right | by left].
  by rewrite map_app.
Qed.

Lemma markAsRead_ids this userName w :
  message_ids (snd (markAsRead this userName w)) = message_ids w.
Proof.
  unfold markAsRead. destruct (markAsRead_push (readBy this) userName);
    [apply save_ids | done].
Qed.

Lemma Promise_all_world {A} (p : M A) rest w :
  snd (Promise_all (p :: rest) w) = snd (Promise_all rest (snd (p w))).
Proof.
  cbn [Promise_all]. destruct (p w) as [[a | e] w1]; simpl; [| done].
  by destruct (Promise_all rest w1) as [[l | e] w2].
Qed.

Lemma Promise_all_marks_ids userName found w :
  message_ids
    (snd (Promise_all
            (map (λ message,
                    if includes (readBy message) userName
                    then ret message
                    else markAsRead message userName) found) w))
  = message_ids w.
Proof.
  revert w. induction found as [|m found IH]; intros w; [done |].
  cbn [map]. rewrite Promise_all_world, IH.
  destruct (includes (readBy m) userName); [done | apply markAsRead_ids].
Qed.

Lemma get_messages_ids u groupId qpage qlimit w :
  message_ids (snd (get_messages u groupId qpage qlimit w)) = message_ids w.
Proof.
  unfold get_messages, try_catch, bind, Group_findById.
  destruct (List.find _ (groups w)) as [g|]; [| done].
  destruct (negb (is_member u g)); [done |].
  unfold Message_find_page.
  destruct (skip_limit _ _ _) as [found|]; [| done].
  unfold Message_countDocuments.
  pose proof (Promise_all_marks_ids (au_name u) found w) as Hids.
  destruct (Promise_all _ w) as [[marked | e] w1]; simpl in *; done.
Qed.

Lemma put_message_ids u groupId messageId newText w :
  message_ids (snd (put_message u groupId messageId newText w)) = message_ids w.
Proof.
  destruct (List.find (is_own_live messageId groupId (au_id u)) (messages w))
    as [m|] eqn:Hf.
  - destruct (next_write_ok w) eqn:Hok.
    + rewrite (put_message_200 _ _ _ _ _ m) by done. apply replace_doc_ids.
    + by rewrite (put_message_500 _ _ _ _ _ m).
  - by rewrite put_message_404.
Qed.

Lemma delete_message_ids u groupId messageId w :
  message_ids (snd (delete_message u groupId messageId w)) = message_ids w.
Proof.
  destruct (List.find (is_own_live messageId groupId (au_id u)) (messages w))
    as [m|] eqn:Hf.
  - destruct (next_write_ok w) eqn:Hok.
    + rewrite (delete_message_200 _ _ _ _ m) by done. apply replace_doc_ids.
    + by rewrite (delete_message_500 _ _ _ _ m).
  - by rewrite delete_message_404.
Qed.

Lemma read_message_ids u groupId messageId w :
  message_ids (snd (read_message u groupId messageId w)) = message_ids w.
Proof.
  unfold read_message, try_catch, bind, Group_findById.
  destruct (List.find _ (groups w)) as [g|]; [| done].
  destruct (negb (is_member u g)); [done |].
  unfold Message_findById, Message_findOne.
  destruct (List.find _ (messages w)) as [m|]; [| done].
  pose proof (markAsRead_ids m (Some (au_id u)) w) as Hids.
  destruct (markAsRead m (Some (au_id u)) w) as [[m' | e] w1]; done.
Qed.

Lemma post_message_ids u groupId c t md r w :
  message_ids (snd (post_message u groupId c t md r w)) = message_ids w
  ∨ message_ids (snd (post_message u groupId c t md r w))
    = (message_ids w ++ [oid (oidgen w)])%list.
Proof.
  destruct (post_message_cases u groupId c t md r w) as [Hc | [_ ->]].
  - left. repeat (apply elem_of_cons in Hc as [-> | Hc]); try done.
    inversion Hc.
  - right. unfold message_ids. simpl. by rewrite map_app.
Qed.

Lemma on_chat_message_ids data w :
  message_ids (snd (on_chat_message data w)) = message_ids w
  ∨ message_ids (snd (on_chat_message data w))
    = (message_ids w ++ [oid (oidgen w)])%list.
Proof.
  destruct (d_user data) as [usr|] eqn:Hu.
  - destruct (next_write_ok w) eqn:Hok.
    + right. rewrite (on_chat_message_saved _ usr) by done.
      unfold message_ids. simpl. by rewrite map_app.
    + left. by rewrite (on_chat_message_rejected _ usr).
  - left. by rewrite on_chat_message_no_user.
Qed.

Lemma on_read_receipt_ids data w :
  message_ids (snd (on_read_receipt data w)) = message_ids w.
Proof.
  unfold on_read_receipt, try_catch, bind, log, effect, Message_findOne.
  simpl. destruct (List.find _ (messages w)) as [m|]; [| done].
  pose proof (markAsRead_ids m (rd_user data)
                (record (Logged "info" "Read receipt in group:") w)) as Hids.
  destruct (markAsRead m (rd_user data) _) as [[m' | e] w1]; done.
Qed.

(** X1: no message route and no socket handler removes a document or
    changes the order of the collection, whatever the request and whatever
    the store's verdicts: the list of stored ids stays as it was, except that
    the two send paths may append the id of the new message. *)
Theorem handlers_keep_documents w :
  (∀ u groupId qpage qlimit,
     message_ids (snd (get_messages u groupId qpage qlimit w)) = message_ids w)
  ∧ (∀ u groupId messageId newText,
       message_ids (snd (put_message u groupId messageId newText w))
       = message_ids w)
  ∧ (∀ u groupId messageId,
       message_ids (snd (delete_message u groupId messageId w)) = message_ids w)
  ∧ (∀ u groupId messageId,
       message_ids (snd (read_message u groupId messageId w)) = message_ids w)
  ∧ (∀ data, message_ids (snd (on_read_receipt data w)) = message_ids w)
  ∧ (∀ u groupId c t md r,
       message_ids (snd (post_message u groupId c t md r w)) = message_ids w
       ∨ message_ids (snd (post_message u groupId c t md r w))
         = (message_ids w ++ [oid (oidgen w)])%list)
  ∧ (∀ data,
       message_ids (snd (on_chat_message data w)) = message_ids w
       ∨ message_ids (snd (on_chat_message data w))
         = (message_ids w ++ [oid (oidgen w)])%list).
Proof.
  repeat split; intros.
  - apply get_messages_ids.
  - apply put_message_ids.
  - apply delete_message_ids.
  - apply read_message_ids.
  - apply on_read_receipt_ids.
  - apply post_message_ids.
  - apply on_chat_message_ids.
Qed.

(** ** What a list answer can hold *)

Lemma markAsRead_Returned this userName w a w1 :
  markAsRead this userName w = (Returned a, w1) →
  forget_read_state a = forget_read_state this.
Proof.
  unfold markAsRead.
  destruct (markAsRead_push (readBy this) userName) as [l|].
  - unfold save, bind, new_Date, store_write, ret.
    destruct (next_write_ok w); [| done]. by intros [= <- _].
  - by intros [= <- _].
Qed.

Lemma Promise_all_marks_Returned userName found w marked w' :
  Promise_all
    (map (λ message,
            if includes (readBy message) userName
            then ret message
            else markAsRead message userName) found) w
  = (Returned marked, w') →
  Forall2 (λ m a, forget_read_state a = forget_read_state m) found marked.
Proof.
  revert w marked w'. induction found as [|m found IH]; intros w marked w'.
  - intros [= <- _]. constructor.
  - cbn [map Promise_all].
    destruct ((if includes (readBy m) userName then ret m
               else markAsRead m userName) w) as [[a | e] w1] eqn:Hp.
    + destruct (Promise_all _ w1) as [[l | e] w2] eqn:Hrest; [| done].
      intros [= <- _]. constructor; [| by eapply IH].
      destruct (includes (readBy m) userName).
      * by injection Hp as <- _.
      * by eapply markAsRead_Returned.
    + done.
Qed.

Lemma skip_limit_sublist {A} skip limit (docs found : list A) :
  skip_limit skip limit docs = Some found → found `sublist_of` docs.
Proof.
  unfold skip_limit. destruct (skip <? 0); [done |].
  destruct (limit =? 0); intros [= <-].
  - apply sublist_drop.
  - apply slice_sublist.
Qed.

Lemma get_messages_200_inv u groupId qpage qlimit w resp w' :
  get_messages u groupId qpage qlimit w = (Returned resp, w') →
  status resp = 200%nat →
  ∃ g found msgs total page pages limit,
    find_group groupId w = Some g ∧ is_member u g = true
    ∧ body resp = BMessages msgs total page pages limit
    ∧ found ⊆ live_messages groupId w
    ∧ Forall2 (λ m a, forget_read_state a = forget_read_state m) found msgs.
Proof.
  unfold get_messages, try_catch, bind, Group_findById, find_group.
  destruct (List.find _ (groups w)) as [g|]; [| by intros [= <- _]].
  destruct (is_member u g) eqn:Hm; [| by intros [= <- _]]. simpl.
  unfold Message_find_page.
  destruct (skip_limit _ _ _) as [found|] eqn:Hfound;
    [| by intros [= <- _]].
  unfold Message_countDocuments.
  destruct (Promise_all _ w) as [[marked | e] w1] eqn:Hall;
    [| by intros [= <- _]].
  intros [= <- _] _. eexists g, found, marked, _, _, _, _.
  split; [done |]. split; [done |]. split; [done |]. split.
  - apply skip_limit_sublist, sublist_subseteq in Hfound.
    intros x Hx. apply Hfound in Hx. unfold sort_by_createdAt in Hx.
    by rewrite merge_sort_Permutation in Hx.
  - by apply Promise_all_marks_Returned in Hall.
Qed.

(** X2: whatever the page, the limit, the user's name and the store's
    verdicts, a 200 answer of the list route is given to a member of the
    group only, and every message in it is a stored message of that group
    that is not deleted (up to the read state the route itself adds). *)
Theorem list_answers_hold_live_messages u groupId qpage qlimit w resp w' :
  get_messages u groupId qpage qlimit w = (Returned resp, w') →
  status resp = 200%nat →
  ∃ g msgs total page pages limit,
    find_group groupId w = Some g ∧ is_member u g = true
    ∧ body resp = BMessages msgs total page pages limit
    ∧ Forall (λ a, ∃ m, m ∈ messages w ∧ group m = groupId
                        ∧ deleted m = false
                        ∧ forget_read_state a = forget_read_state m) msgs.
Proof.
  intros Hrun Hst.
  destruct (get_messages_200_inv _ _ _ _ _ _ _ Hrun Hst)
    as (g & found & msgs & total & page & pages & limit
        & Hg & Hm & Hbody & Hlive & Hall).
  exists g, msgs, total, page, pages, limit.
  split; [done |]. split; [done |]. split; [done |].
  clear Hbody Hrun. revert Hlive.
  induction Hall as [|m a found msgs Ha _ IH]; intros Hlive; constructor.
  - exists m. assert (Hin : m ∈ m :: found) by apply list_elem_of_here.
    apply Hlive in Hin. unfold live_messages in Hin.
    apply elem_of_filter in Hin as [Hin Hq].
    apply in_group_live_true in Hq as [Hgr Hd]. done.
  - apply IH. intros x Hx. apply Hlive. by right.
Qed.

Lemma list_answers_hold_live_messages_witness :
  ∃ g msgs total page pages limit,
    find_group idG world2 = Some g ∧ is_member Ann g = true
    ∧ body (mkResponse 200
              (BMessages [read_doc (Some "Ann") 20 hello] 1 1 1 50))
      = BMessages msgs total page pages limit
    ∧ Forall (λ a, ∃ m, m ∈ messages world2 ∧ group m = idG
                        ∧ deleted m = false
                        ∧ forget_read_state a = forget_read_state m) msgs.
Proof.
  apply (list_answers_hold_live_messages Ann idG None None world2
           (mkResponse 200
              (BMessages [read_doc (Some "Ann") 20 hello] 1 1 1 50))
           (snd (get_messages Ann idG None None world2)));
    reflexivity.
Defined.

(** ** The membership gate *)

Lemma get_messages_gate u groupId qpage qlimit w :
  (find_group groupId w = None →
   get_messages u groupId qpage qlimit w
   = (Returned (mkResponse 404 (BError "Group not found")), w))
  ∧ (∀ g, find_group groupId w = Some g → is_member u g = false →
       get_messages u groupId qpage qlimit w
       = (Returned
            (mkResponse 403 (BError "You are not a member of this group")), w)).
Proof.
  unfold get_messages, try_catch, bind, Group_findById, find_group.
  split; [intros -> | intros g -> ->]; done.
Qed.

Lemma read_message_gate u groupId messageId w :
  (find_group groupId w = None →
   read_message u groupId messageId w
   = (Returned (mkResponse 404 (BError "Group not found")), w))
  ∧ (∀ g, find_group groupId w = Some g → is_member u g = false →
       read_message u groupId messageId w
       = (Returned
            (mkResponse 403 (BError "You are not a member of this group")), w)).
Proof.
  unfold read_message, try_catch, bind, Group_findById, find_group.
  split; [intros -> | intros g -> ->]; done.
Qed.



(** ** The edit and delete routes do not look at groups *)

(** X4: the edit and the delete route never read the Group collection:
    with any other set of groups — the group deleted, the caller no longer a
    member — they give the same answer and make the same changes. *)
Theorem edit_and_delete_ignore_groups gs w :
  (∀ u groupId messageId newText,
     put_message u groupId messageId newText (set_groups gs w)
     = (fst (put_message u groupId messageId newText w),
        set_groups gs (snd (put_message u groupId messageId newText w))))
  ∧ (∀ u groupId messageId,
       delete_message u groupId messageId (set_groups gs w)
       = (fst (delete_message u groupId messageId w),
          set_groups gs (snd (delete_message u groupId messageId w)))).
Proof.
  split; intros.
  - destruct (List.find (is_own_live messageId groupId (au_id u)) (messages w))
      as [m|] eqn:Hf.
    + destruct (next_write_ok w) eqn:Hok.
      * rewrite (put_message_200 _ _ _ _ w m) by done.
        by rewrite (put_message_200 _ _ _ _ (set_groups gs w) m).
      * rewrite (put_message_500 _ _ _ _ w m) by done.
        by rewrite (put_message_500 _ _ _ _ (set_groups gs w) m).
    + rewrite (put_message_404 _ _ _ _ w) by done.
      by rewrite (put_message_404 _ _ _ _ (set_groups gs w)).
  - destruct (List.find (is_own_live messageId groupId (au_id u)) (messages w))
      as [m|] eqn:Hf.
    + destruct (next_write_ok w) eqn:Hok.
      * rewrite (delete_message_200 _ _ _ w m) by done.
        by rewrite (delete_message_200 _ _ _ (set_groups gs w) m).
      * rewrite (delete_message_500 _ _ _ w m) by done.
        by rewrite (delete_message_500 _ _ _ (set_groups gs w) m).
    + rewrite (delete_message_404 _ _ _ w) by done.
      by rewrite (delete_message_404 _ _ _ (set_groups gs w)).
Qed.

(** ** Messages of the socket path and the HTTP routes *)

(** X5: a message stored by the socket handler has no [sender] key, so
    the queries of the edit and the delete route never match it: once it is
    stored, every edit or delete request for its id, by anybody, is answered
    404 and changes nothing. *)
Theorem chat_messages_cannot_be_edited data usr w :
  d_user data = Some usr → next_write_ok w = true →
  oid (oidgen w) ∉ message_ids w →
  let w' := snd (on_chat_message data w) in
  oid (oidgen w) ∈ message_ids w'
  ∧ (∀ u groupId newText,
       put_message u groupId (oid (oidgen w)) newText w'
       = (Returned
            (mkResponse 404 (BError "Message not found or unauthorized")), w'))
  ∧ (∀ u groupId,
       delete_message u groupId (oid (oidgen w)) w'
       = (Returned
            (mkResponse 404 (BError "Message not found or unauthorized")), w')).
Proof.
  intros Hu Hok Hfresh w'.
  assert (Hmsgs : messages w'
                  = (messages w
                     ++ [chat_doc data usr (oid (oidgen w)) (clock w)])%list).
  { subst w'. by rewrite (on_chat_message_saved _ usr). }
  assert (Hnone : ∀ u groupId,
            List.find (is_own_live (oid (oidgen w)) groupId (au_id u))
                      (messages w') = None).
  { intros u groupId. apply find_None_iff. intros x Hx.
    rewrite Hmsgs in Hx. apply elem_of_app in Hx as [Hx | Hx].
    - destruct (is_own_live _ _ _ x) eqn:E; [| done].
      apply is_own_live_true in E as (Hid & _). destruct Hfresh.
      rewrite <- Hid. unfold message_ids. by apply list_elem_of_fmap_2.
    - apply list_elem_of_singleton in Hx as ->.
      destruct (is_own_live _ _ _ _) eqn:E; [| done].
      by apply is_own_live_true in E as (_ & _ & Hs & _). }
  split; [| split].
  - unfold message_ids. rewrite Hmsgs, map_app. apply elem_of_app. right.
    apply list_elem_of_here.
  - intros. by apply put_message_404.
  - intros. by apply delete_message_404.
Qed.

Lemma chat_messages_cannot_be_edited_witness :
  let data := mkChatData (Some "c1") (Some "hello") idG
                (Some (mkUserSub idU1 (Some "Ann") None)) None None None in
  let w' := snd (on_chat_message data world0) in
  oid 0 ∈ message_ids w'
  ∧ (∀ u groupId newText,
       put_message u groupId (oid 0) newText w'
       = (Returned
            (mkResponse 404 (BError "Message not found or unauthorized")), w'))
  ∧ (∀ u groupId,
       delete_message u groupId (oid 0) w'
       = (Returned
            (mkResponse 404 (BError "Message not found or unauthorized")), w')).
Proof.
  apply (chat_messages_cannot_be_edited
           (mkChatData (Some "c1") (Some "hello") idG
              (Some (mkUserSub idU1 (Some "Ann") None)) None None None)
           (mkUserSub idU1 (Some "Ann") None) world0);
    [reflexivity | reflexivity |].
  intros H. inversion H.
Defined.

(** ** Create, then list or edit *)


Lemma find_app_None {A} (f : A → bool) (l k : list A) :
  List.find f l = None → List.find f (l ++ k) = List.find f k.
Proof.
  induction l as [|a l IH]; [done |]. simpl. destruct (f a); [done | exact IH].
Qed.






(** ** Delete, then list *)

Lemma delete_message_200_inv u groupId messageId w w1 :
  delete_message u groupId messageId w
  = (Returned (mkResponse 200 BSuccess), w1) →
  ∃ m,
    m ∈ messages w ∧ _id m = messageId
    ∧ messages w1
      = replace_doc (deleted_doc (au_id u) (clock w) m) (messages w).
Proof.
  intros Hrun.
  destruct (List.find (is_own_live messageId groupId (au_id u)) (messages w))
    as [m|] eqn:Hf.
  - destruct (next_write_ok w) eqn:Hok.
    + rewrite (delete_message_200 _ _ _ _ m) in Hrun by done.
      injection Hrun as <-. apply find_Some_elem in Hf as [Hin Hq].
      apply is_own_live_true in Hq as (Hid & _). by exists m.
    + by rewrite (delete_message_500 _ _ _ _ m) in Hrun.
  - by rewrite delete_message_404 in Hrun.
Qed.

(** X8: after a delete request was answered 200, every stored document
    with that id is marked deleted, every document with another id — a reply
    to the deleted message too — is as it was, and no list answer, for any
    user, group, page or limit, holds a message with that id. *)
Theorem deleted_message_is_not_listed u groupId messageId w w1 :
  delete_message u groupId messageId w
  = (Returned (mkResponse 200 BSuccess), w1) →
  (∀ d, d ∈ messages w1 → _id d = messageId → deleted d = true)
  ∧ (∀ d, d ∈ messages w → _id d ≠ messageId → d ∈ messages w1)
  ∧ (∀ u' g' qpage qlimit resp w2 msgs total page pages limit,
       get_messages u' g' qpage qlimit w1 = (Returned resp, w2) →
       status resp = 200%nat →
       body resp = BMessages msgs total page pages limit →
       messageId ∉ map _id msgs).
Proof.
  intros Hrun.
  destruct (delete_message_200_inv _ _ _ _ _ Hrun) as (m & Hin & Hid & Hmsgs).
  assert (Hdel : ∀ d, d ∈ messages w1 → _id d = messageId → deleted d = true).
  { intros d Hd Hdid. rewrite Hmsgs in Hd. unfold replace_doc in Hd.
    apply list_elem_of_fmap in Hd as (x & -> & Hx).
    destruct (String.eqb (_id x) _) eqn:E; [done |].
    apply String.eqb_neq in E. simpl in E. congruence. }
  split; [exact Hdel |]. split.
  - intros d Hd Hne. rewrite Hmsgs. unfold replace_doc.
    apply list_elem_of_fmap. exists d. split; [| done].
    assert (String.eqb (_id d) (_id (deleted_doc (au_id u) (clock w) m))
            = false) as ->; [| done].
    apply String.eqb_neq. simpl. congruence.
  - intros u' g' qpage qlimit resp w2 msgs total page pages limit Hget Hst Hb.
    destruct (get_messages_200_inv _ _ _ _ _ _ _ Hget Hst)
      as (g & found & msgs' & tt' & pg' & pgs' & lm' & _ & _ & Hbody & Hlive
          & Hall).
    rewrite Hb in Hbody. injection Hbody as <- _ _ _ _.
    intros Hmem. apply list_elem_of_fmap in Hmem as (a & Ha & Hain).
    assert (Hsome : ∃ x, x ∈ found
                         ∧ forget_read_state a = forget_read_state x).
    { clear Hlive Hget Hb. revert Hain.
      induction Hall as [|x y found msgs Hxy _ IH]; intros Hain;
        [inversion Hain |].
      apply elem_of_cons in Hain as [-> | Hain].
      - exists x. split; [apply list_elem_of_here | done].
      - destruct (IH Hain) as (x' & Hx' & Heq). exists x'.
        split; [by right | done]. }
    destruct Hsome as (x & Hx & Heq).
    apply Hlive in Hx. unfold live_messages in Hx.
    apply elem_of_filter in Hx as [Hx Hq].
    apply in_group_live_true in Hq as [_ Hlivex].
    assert (Hidx : _id x = messageId).
    { rewrite Ha. change (_id a) with (_id (forget_read_state a)).
      by rewrite Heq. }
    rewrite (Hdel x Hx Hidx) in Hlivex. done.
Qed.

Lemma deleted_message_is_not_listed_witness :
  let w1 := snd (delete_message U1 idG (oid 0) world2) in
  (∀ d, d ∈ messages w1 → _id d = oid 0 → deleted d = true)
  ∧ (∀ d, d ∈ messages world2 → _id d ≠ oid 0 → d ∈ messages w1)
  ∧ (∀ u' g' qpage qlimit resp w2 msgs total page pages limit,
       get_messages u' g' qpage qlimit w1 = (Returned resp, w2) →
       status resp = 200%nat →
       body resp = BMessages msgs total page pages limit →
       oid 0 ∉ map _id msgs).
Proof.
  apply (deleted_message_is_not_listed U1 idG (oid 0) world2
           (snd (delete_message U1 idG (oid 0) world2))).
  reflexivity.
Defined.

(** ** Broadcasts of the edit, delete and mark-read routes *)

(** X9: the edit and the delete route emit their event only after the
    save was acknowledged; a rejected save is logged and answered 500, and
    nothing is emitted. *)
Theorem edits_and_deletes_broadcast_after_write w :
  (∀ u groupId messageId newText,
     ∃ es,
       trace (snd (put_message u groupId messageId newText w))
       = (trace w ++ es)%list
       ∧ emit_only_after_store es ∧ rejected_means_silent es
       ∧ (StoreRejected ∈ es →
          status_of (put_message u groupId messageId newText w) = 500%nat))
  ∧ (∀ u groupId messageId,
       ∃ es,
         trace (snd (delete_message u groupId messageId w))
         = (trace w ++ es)%list
         ∧ emit_only_after_store es ∧ rejected_means_silent es
         ∧ (StoreRejected ∈ es →
            status_of (delete_message u groupId messageId w) = 500%nat)).
Proof.
  split; intros.
  - destruct (List.find (is_own_live messageId groupId (au_id u)) (messages w))
      as [m|] eqn:Hf.
    + destruct (next_write_ok w) eqn:Hok.
      * rewrite (put_message_200 _ _ _ _ _ m) by done.
        eexists [Stored _; Emitted _ _ _].
        split; [simpl; by rewrite <- app_assoc |].
        split; [by apply emits_follow_store_spec |].
        split; intros H; no_such_effect H.
      * rewrite (put_message_500 _ _ _ _ _ m) by done.
        exists [StoreRejected; Logged "error" "Error editing message:"].
        split; [simpl; by rewrite <- app_assoc |].
        split; [by apply emits_follow_store_spec |].
        split; [| done]. intros _. split.
        -- intros room event p H. no_such_effect H.
        -- eexists. apply list_elem_of_further, list_elem_of_here.
    + rewrite put_message_404 by done. exists [].
      split; [by rewrite app_nil_r |].
      split; [by apply emits_follow_store_spec |].
      split; intros H; inversion H.
  - destruct (List.find (is_own_live messageId groupId (au_id u)) (messages w))
      as [m|] eqn:Hf.
    + destruct (next_write_ok w) eqn:Hok.
      * rewrite (delete_message_200 _ _ _ _ m) by done.
        eexists [Stored _; Emitted _ _ _].
        split; [simpl; by rewrite <- app_assoc |].
        split; [by apply emits_follow_store_spec |].
        split; intros H; no_such_effect H.
      * rewrite (delete_message_500 _ _ _ _ m) by done.
        exists [StoreRejected; Logged "error" "Error deleting message:"].
        split; [simpl; by rewrite <- app_assoc |].
        split; [by apply emits_follow_store_spec |].
        split; [| done]. intros _. split.
        -- intros room event p H. no_such_effect H.
        -- eexists. apply list_elem_of_further, list_elem_of_here.
    + rewrite delete_message_404 by done. exists [].
      split; [by rewrite app_nil_r |].
      split; [by apply emits_follow_store_spec |].
      split; intros H; inversion H.
Qed.

Lemma edits_and_deletes_broadcast_after_write_witness :
  let w := set_faults [true] world1 in
  ∃ es,
    trace (snd (put_message U1 idG (oid 0) (Some "x") w)) = (trace w ++ es)%list
    ∧ StoreRejected ∈ es
    ∧ status_of (put_message U1 idG (oid 0) (Some "x") w) = 500%nat.
Proof.
  intros w.
  destruct (proj1 (edits_and_deletes_broadcast_after_write w) U1 idG (oid 0)
              (Some "x")) as (es & Htr & _ & _ & H500).
  exists es. split; [exact Htr |].
  assert (Hin : StoreRejected ∈ es).
  { change (trace (snd (put_message U1 idG (oid 0) (Some "x") w)))
      with (trace w ++ [StoreRejected;
                        Logged "error" "Error editing message:"])%list in Htr.
    apply app_inv_head in Htr. subst es. apply list_elem_of_here. }
  split; [exact Hin | exact (H500 Hin)].
Defined.

(** X10: a mark-read request of a member who is already in [readBy]
    writes nothing — so it is answered 200 even on a store that would reject
    a write — and still emits messageRead to the room. *)
Theorem repeated_read_is_broadcast u groupId messageId w g m :
  find_group groupId w = Some g → is_member u g = true →
  find_message messageId w = Some m → au_id u ∈ readBy m →
  read_message u groupId messageId w
  = (Returned (mkResponse 200 BSuccess),
     record (Emitted groupId "messageRead" (PRead messageId (au_id u))) w).
Proof.
  intros Hg Hm Hf Hin.
  unfold read_message, try_catch, bind, Group_findById.
  unfold find_group in Hg. rewrite Hg, Hm. simpl.
  unfold Message_findById, Message_findOne. unfold find_message in Hf.
  rewrite Hf. unfold markAsRead. by rewrite markAsRead_push_None.
Qed.

Lemma repeated_read_is_broadcast_witness :
  let w := set_faults [true] world1 in
  read_message U1 idG (oid 0) w
  = (Returned (mkResponse 200 BSuccess),
     record (Emitted idG "messageRead" (PRead (oid 0) idU1)) w).
Proof.
  intros w.
  apply (repeated_read_is_broadcast U1 idG (oid 0) w groupG hello);
    try reflexivity.
  apply list_elem_of_here.
Defined.

(** X11: the mark-read route looks the message up by its id and does not
    test [deleted]: a soft-deleted message still takes read receipts, and
    stays deleted. *)
Theorem deleted_message_takes_receipts u groupId messageId w g m :
  find_group groupId w = Some g → is_member u g = true →
  find_message messageId w = Some m → deleted m = true →
  au_id u ≠ "" → au_id u ∉ readBy m → next_write_ok w = true →
  ∃ m',
    status_of (read_message u groupId messageId w) = 200%nat
    ∧ find_message messageId (snd (read_message u groupId messageId w))
      = Some m'
    ∧ readBy m' = (readBy m ++ [au_id u])%list ∧ deleted m' = true.
Proof.
  intros Hg Hm Hf Hdel Hne Hnotin Hok.
  exists (read_doc (Some (au_id u)) (clock w) m).
  split; [| split].
  - by rewrite (read_message_200 _ _ _ _ g m).
  - by apply (read_message_find _ _ _ _ g).
  - unfold read_doc. by rewrite markAsRead_push_Some.
Qed.

Lemma deleted_message_takes_receipts_witness :
  let w := snd (delete_message U1 idG (oid 0) world1) in
  ∃ m',
    status_of (read_message U2 idG (oid 0) w) = 200%nat
    ∧ find_message (oid 0) (snd (read_message U2 idG (oid 0) w)) = Some m'
    ∧ readBy m' = [idU1; idU2] ∧ deleted m' = true.
Proof.
  intros w.
  apply (deleted_message_takes_receipts U2 idG (oid 0) w groupG
           (deleted_doc idU1 20 hello));
    try reflexivity; try discriminate.
  intros H. apply list_elem_of_singleton in H. discriminate.
Defined.

(** ** socket.on('read receipt') *)

Lemma on_read_receipt_unfold data w :
  on_read_receipt data w
  = let w0 := record (Logged "info" "Read receipt in group:") w in
    match List.find (has_logical_id (rd_messageId data)) (messages w) with
    | Some m =>
        match markAsRead m (rd_user data) w0 with
        | (Returned _, w1) =>
            (Returned tt,
             record (Emitted (rd_groupId data) "messageRead"
                       (PReceipt (rd_messageId data) (rd_user data)
                          (rd_groupId data))) w1)
        | (Thrown _, w1) =>
            (Returned tt,
             record (Logged "error" "Error updating read receipt:") w1)
        end
    | None => (Returned tt, record (Logged "error" "Message not found:") w0)
    end.
Proof.
  unfold on_read_receipt, try_catch, bind, log, effect, Message_findOne,
    emit, effect, has_logical_id. simpl.
  destruct (List.find _ (messages w)) as [m|]; [| done].
  by destruct (markAsRead m (rd_user data) _) as [[m' | e] w1].
Qed.

(** X12: the read-receipt handler finds the message by the client's
    logical id, a key only the socket path writes.  When no stored message
    has that id — every message created over HTTP is such a case — the
    receipt is dropped: an error is logged, nothing is stored and nothing is
    emitted, and the sender gets no answer. *)
Theorem unknown_receipt_is_dropped data w :
  (∀ m, m ∈ messages w → id_ m ≠ Some (rd_messageId data)) →
  on_read_receipt data w
  = (Returned tt,
     record (Logged "error" "Message not found:")
       (record (Logged "info" "Read receipt in group:") w)).
Proof.
  intros Hnone. rewrite on_read_receipt_unfold.
  assert (List.find (has_logical_id (rd_messageId data)) (messages w) = None)
    as ->; [| done].
  apply find_None_iff. intros m Hm. unfold has_logical_id.
  apply bool_decide_eq_false_2. by apply Hnone.
Qed.

Lemma unknown_receipt_is_dropped_witness :
  on_read_receipt (mkReceiptData (oid 0) idG (Some idU2)) world2
  = (Returned tt,
     record (Logged "error" "Message not found:")
       (record (Logged "info" "Read receipt in group:") world2)).
Proof.
  apply (unknown_receipt_is_dropped (mkReceiptData (oid 0) idG (Some idU2))
           world2).
  intros m Hm. apply elem_of_cons in Hm as [-> | Hm]; [discriminate |].
  apply list_elem_of_singleton in Hm as ->. discriminate.
Defined.

(** X13: a read receipt for a stored logical id is taken from anybody:
    the handler reads no group and no membership.  The name in the payload is
    appended to [readBy], and messageRead goes to the room named in the
    payload, which need not be the message's group.  If the store rejects the
    write, the error is logged and nothing is emitted. *)
Theorem receipt_is_taken_from_anybody data w m name :
  List.find (has_logical_id (rd_messageId data)) (messages w) = Some m →
  rd_user data = Some name → name ≠ "" → name ∉ readBy m →
  (next_write_ok w = true →
   ∃ m' w',
     on_read_receipt data w = (Returned tt, w')
     ∧ find_message (_id m) w' = Some m'
     ∧ readBy m' = (readBy m ++ [name])%list
     ∧ trace w'
       = (trace w ++ [Logged "info" "Read receipt in group:"; Stored m';
                      Emitted (rd_groupId data) "messageRead"
                        (PReceipt (rd_messageId data) (Some name)
                           (rd_groupId data))])%list)
  ∧ (next_write_ok w = false →
     ∃ w',
       on_read_receipt data w = (Returned tt, w')
       ∧ messages w' = messages w
       ∧ trace w'
         = (trace w ++ [Logged "info" "Read receipt in group:"; StoreRejected;
                        Logged "error" "Error updating read receipt:"])%list).
Proof.
  intros Hf Hname Hne Hnotin. split; intros Hok.
  - rewrite on_read_receipt_unfold, Hf, Hname. cbv zeta.
    rewrite markAsRead_ok by done.
    rewrite markAsRead_push_Some by done.
    unfold read_doc. rewrite markAsRead_push_Some by done.
    exists (set_updatedAt (clock w) (set_readBy (readBy m ++ [name])%list m)).
    eexists. split; [reflexivity |].
    split; [| split; [done |]].
    + unfold find_message. simpl.
      change (_id m)
        with (_id (set_updatedAt (clock w)
                     (set_readBy (readBy m ++ [name])%list m))) at 1.
      apply find_by_id_replace_doc. exists m. split; [| done].
      by apply find_Some_elem in Hf as [? _].
    + simpl. by rewrite <- !app_assoc.
  - rewrite on_read_receipt_unfold, Hf, Hname. cbv zeta.
    unfold markAsRead. rewrite markAsRead_push_Some by done.
    rewrite save_rejected by done.
    eexists. split; [reflexivity |]. split; [done |].
    simpl. by rewrite <- !app_assoc.
Qed.

Lemma receipt_is_taken_from_anybody_witness :
  let w := snd (on_chat_message
                  (mkChatData (Some "c1") (Some "hello") idH
                     (Some (mkUserSub idU3 None None)) None None None)
                  world0) in
  ∃ m' w',
    on_read_receipt (mkReceiptData "c1" idG (Some "stranger")) w
    = (Returned tt, w')
    ∧ find_message (oid 0) w' = Some m'
    ∧ group m' = idH ∧ readBy m' = ["stranger"].
Proof.
  intros w.
  destruct (proj1 (receipt_is_taken_from_anybody
                     (mkReceiptData "c1" idG (Some "stranger")) w
                     (chat_doc
                        (mkChatData (Some "c1") (Some "hello") idH
                           (Some (mkUserSub idU3 None None)) None None None)
                        (mkUserSub idU3 None None) (oid 0) 10)
                     "stranger" eq_refl eq_refl ltac:(discriminate)
                     ltac:(intros H; inversion H)) eq_refl)
    as (m' & w' & Hrun & Hfind & Hread & _).
  exists m', w'. split; [exact Hrun |]. split; [exact Hfind |].
  split; [| exact Hread].
  assert (Hw' : w' = snd (on_read_receipt
                            (mkReceiptData "c1" idG (Some "stranger")) w))
    by (by rewrite Hrun).
  rewrite Hw' in Hfind. vm_compute in Hfind. injection Hfind as <-.
  reflexivity.
Defined.

(** * Properties of the group routes *)

Lemma Group_save_ok g w :
  next_write_ok w = true →
  Group_save g w = (Returned tt, after_group_write (replace_group g (groups w)) w).
Proof. intros Hok. unfold Group_save, group_write. by rewrite Hok. Qed.

Lemma Group_save_rejected g w :
  next_write_ok w = false →
  Group_save g w = (Thrown "store write failed", set_faults (tail (faults w)) w).
Proof. intros Hok. unfold Group_save, group_write. by rewrite Hok. Qed.

Lemma find_group_replace g' gs w0 :
  (∃ d, d ∈ gs ∧ g_id d = g_id g') →
  find_group (g_id g') (set_groups (replace_group g' gs) w0) = Some g'.
Proof.
  unfold find_group. simpl.
  induction gs as [|a gs IH]; intros (d & Hd & Hid); [inversion Hd |].
  simpl. destruct (String.eqb (g_id a) (g_id g')) eqn:Ea.
  - by rewrite String.eqb_refl.
  - rewrite Ea. apply IH. apply elem_of_cons in Hd as [-> | Hd].
    + apply eqb_true in Hid. congruence.
    + eauto.
Qed.

Lemma find_group_elem id w g :
  find_group id w = Some g → g ∈ groups w ∧ g_id g = id.
Proof.
  unfold find_group. intros H. apply find_Some_elem in H as [Hin Hq].
  by apply eqb_true in Hq.
Qed.


(** ** POST /:id/join *)

Lemma join_group_run u id w g :
  find_group id w = Some g → next_write_ok w = true →
  join_group u id w
  = if is_member u g
    then (Returned (mkGroupResponse 200 (GGroup g)), w)
    else (Returned
            (mkGroupResponse 200
               (GGroup (with_members (members g ++ [au_id u]) g))),
          after_group_write
            (replace_group (with_members (members g ++ [au_id u]) g) (groups w))
            w).
Proof.
  intros Hg Hok. unfold join_group, bind, Group_findById.
  unfold find_group in Hg. rewrite Hg.
  destruct (is_member u g); simpl; [done |]. by rewrite Group_save_ok.
Qed.

(** X14: joining needs no invitation.  A join request for an existing
    group, the write acknowledged, is answered 200 and leaves the caller
    among the members exactly once more than before at most: the member list
    is the old one, with the caller appended unless already there.  From then
    on the create route of the group's messages does not answer 403 or 404
    to the caller. *)
Theorem join_makes_member u id w g :
  find_group id w = Some g → next_write_ok w = true →
  let w' := snd (join_group u id w) in
  g_status_of (join_group u id w) = 200%nat
  ∧ (∃ g', find_group id w' = Some g'
           ∧ members g' = add_once (members g) (au_id u)
           ∧ is_member u g' = true ∧ creator g' = creator g)
  ∧ messages w' = messages w
  ∧ (∀ c t md,
       status_of (post_message u id c t md None w') ∈ [201; 500]%nat).
Proof.
  intros Hg Hok w'.
  destruct (find_group_elem _ _ _ Hg) as [Hin Hid].
  assert (Hfind : ∃ g', find_group id w' = Some g'
                        ∧ members g' = add_once (members g) (au_id u)
                        ∧ is_member u g' = true ∧ creator g' = creator g).
  { subst w'. rewrite (join_group_run _ _ _ g) by done.
    unfold add_once. destruct (is_member u g) eqn:Hm.
    - exists g. unfold is_member in Hm. by rewrite Hm.
    - exists (with_members (members g ++ [au_id u]) g).
      unfold is_member in Hm. rewrite Hm. split; [| split; [done | split]].
      + rewrite <- Hid.
        change (g_id g)
          with (g_id (with_members (members g ++ [au_id u]) g)) at 1.
        apply find_group_replace. exists g. done.
      + unfold is_member. apply bool_decide_eq_true_2. simpl.
        apply elem_of_app. right. apply list_elem_of_here.
      + done. }
  split; [| split; [exact Hfind | split]].
  - unfold g_status_of. rewrite (join_group_run _ _ _ g) by done.
    by destruct (is_member u g).
  - subst w'. rewrite (join_group_run _ _ _ g) by done.
    by destruct (is_member u g).
  - intros c t md. destruct Hfind as (g' & Hg' & _ & Hm' & _).
    unfold status_of.
    destruct (next_write_ok w') eqn:Hok'.
    + rewrite (post_message_created _ _ _ _ _ _ _ g') by done. set_solver.
    + rewrite (post_message_rejected _ _ _ _ _ _ _ g') by done. set_solver.
Qed.

Lemma join_makes_member_witness :
  let w' := snd (join_group U3 idG world1) in
  g_status_of (join_group U3 idG world1) = 200%nat
  ∧ (∃ g', find_group idG w' = Some g'
           ∧ members g' = [idU1; idU2; idU4; idU3]
           ∧ is_member U3 g' = true ∧ creator g' = idU1)
  ∧ messages w' = messages world1
  ∧ (∀ c t md,
       status_of (post_message U3 idG c t md None w') ∈ [201; 500]%nat).
Proof.
  apply (join_makes_member U3 idG world1 groupG); reflexivity.
Defined.

(** ** A group that does not exist *)



(** ** POST /:id/leave *)

Lemma leave_group_run u id w g :
  find_group id w = Some g → creator g ≠ "" → next_write_ok w = true →
  let g' := with_members
              (List.filter (λ i, negb (String.eqb i (au_id u))) (members g)) g in
  leave_group u id w
  = (Returned (mkGroupResponse 200 (GGroup g')),
     after_group_write (replace_group g' (groups w)) w).
Proof.
  intros Hg Hc Hok g'. unfold leave_group, bind, Group_findById.
  unfold find_group in Hg. rewrite Hg. unfold truthy.
  assert (String.eqb (creator g) "" = false) as -> by by apply String.eqb_neq.
  simpl. by rewrite Group_save_ok.
Qed.

(** X16: after a leave request (the write acknowledged) the caller is no
    member of the group, every other member is one as before, and the creator
    field is untouched — a creator who leaves stays the creator.  From then on
    the list, create and mark-read routes answer 403 to the caller. *)
Theorem leave_removes_member u id w g :
  find_group id w = Some g → creator g ≠ "" → next_write_ok w = true →
  let w' := snd (leave_group u id w) in
  g_status_of (leave_group u id w) = 200%nat
  ∧ (∃ g', find_group id w' = Some g'
           ∧ is_member u g' = false
           ∧ (∀ x, x ≠ au_id u → x ∈ members g' ↔ x ∈ members g)
           ∧ creator g' = creator g)
  ∧ (∀ qpage qlimit, status_of (get_messages u id qpage qlimit w') = 403%nat)
  ∧ (∀ c t md r, status_of (post_message u id c t md r w') = 403%nat)
  ∧ (∀ messageId, status_of (read_message u id messageId w') = 403%nat).
Proof.
  intros Hg Hc Hok w'.
  destruct (find_group_elem _ _ _ Hg) as [Hin Hid].
  set (g' := with_members
               (List.filter (λ i, negb (String.eqb i (au_id u))) (members g)) g).
  assert (Hw' : w' = after_group_write (replace_group g' (groups w)) w).
  { subst w'. by rewrite (leave_group_run _ _ _ g). }
  assert (Hfind : find_group id w' = Some g').
  { rewrite Hw', <- Hid. change (g_id g) with (g_id g') at 1.
    apply find_group_replace. exists g. done. }
  assert (Hnot : is_member u g' = false).
  { unfold is_member. apply bool_decide_eq_false_2. simpl.
    rewrite elem_of_filter, negb_true_iff. intros [_ Hneq].
    by rewrite String.eqb_refl in Hneq. }
  split; [| split; [| split; [| split]]].
  - unfold g_status_of. by rewrite (leave_group_run _ _ _ g).
  - exists g'. split; [done |]. split; [done |]. split; [| done].
    intros x Hx. simpl. rewrite elem_of_filter, negb_true_iff.
    split; [tauto |]. intros Hxin. split; [done |]. by apply String.eqb_neq.
  - intros. unfold status_of.
    by rewrite (proj2 (get_messages_gate _ _ _ _ _) g').
  - intros. unfold status_of.
    by rewrite (post_message_not_member _ _ _ _ _ _ _ g').
  - intros. unfold status_of.
    by rewrite (proj2 (read_message_gate _ _ _ _) g').
Qed.

Lemma leave_removes_member_witness :
  let w' := snd (leave_group U1 idG world1) in
  g_status_of (leave_group U1 idG world1) = 200%nat
  ∧ (∃ g', find_group idG w' = Some g'
           ∧ is_member U1 g' = false
           ∧ (∀ x, x ≠ idU1 → x ∈ members g' ↔ x ∈ members groupG)
           ∧ creator g' = idU1)
  ∧ (∀ qpage qlimit, status_of (get_messages U1 idG qpage qlimit w') = 403%nat)
  ∧ (∀ c t md r, status_of (post_message U1 idG c t md r w') = 403%nat)
  ∧ (∀ messageId, status_of (read_message U1 idG messageId w') = 403%nat).
Proof.
  apply (leave_removes_member U1 idG world1 groupG);
    [reflexivity | discriminate | reflexivity].
Defined.

(** ** DELETE /:id and POST /:id/transfer *)

Lemma owner_gate_refuses u g :
  creator g ≠ "" → creator g ≠ au_id u →
  owner_gate u (Some g)
  = inl (mkGroupResponse 403
           (GError "You are not authorized to perform this action")).
Proof.
  intros Hc Hne. unfold owner_gate, truthy.
  assert (String.eqb (creator g) "" = false) as -> by by apply String.eqb_neq.
  assert (String.eqb (creator g) (au_id u) = false) as ->
    by by apply String.eqb_neq.
  done.
Qed.

Lemma owner_gate_passes u g :
  creator g ≠ "" → creator g = au_id u → owner_gate u (Some g) = inr g.
Proof.
  intros Hc He. unfold owner_gate, truthy.
  assert (String.eqb (creator g) "" = false) as -> by by apply String.eqb_neq.
  assert (String.eqb (creator g) (au_id u) = true) as -> by by apply eqb_true.
  done.
Qed.

Lemma find_group_remove_first id id' gs w0 :
  NoDup (map g_id gs) →
  find_group id' (set_groups (remove_first_group id gs) w0)
  = if String.eqb id' id then None else find_group id' (set_groups gs w0).
Proof.
  unfold find_group. simpl. induction gs as [|a gs IH]; intros Hnd.
  - simpl. by destruct (String.eqb id' id).
  - simpl in Hnd. apply NoDup_cons in Hnd as [Ha Hnd]. simpl.
    destruct (String.eqb (g_id a) id) eqn:Ea.
    + apply eqb_true in Ea. destruct (String.eqb id' id) eqn:E.
      * apply eqb_true in E. apply find_None_iff. intros x Hx.
        apply String.eqb_neq. intros Hxid. apply Ha.
        rewrite Ea, <- E, <- Hxid. by apply list_elem_of_fmap_2.
      * assert (String.eqb (g_id a) id' = false) as ->; [| done].
        apply String.eqb_neq. apply String.eqb_neq in E. congruence.
    + simpl. destruct (String.eqb (g_id a) id') eqn:Ea'.
      * apply eqb_true in Ea'.
        assert (String.eqb id' id = false) as ->; [| done].
        apply String.eqb_neq. apply String.eqb_neq in Ea. congruence.
      * by apply IH.
Qed.

(** X17: only the creator deletes a group.  Anybody else is answered 403
    and nothing changes.  For the creator (the write acknowledged, group ids
    distinct) the answer is 204, the group is gone, every other group is
    found as before, and the messages of the group stay in the store: nothing
    cascades.  The list, create and mark-read routes then answer 404 for that
    group. *)
Theorem delete_group_by_owner_only u id w g :
  find_group id w = Some g → creator g ≠ "" →
  (creator g ≠ au_id u →
   delete_group u id w
   = (Returned
        (mkGroupResponse 403
           (GError "You are not authorized to perform this action")), w))
  ∧ (creator g = au_id u → next_write_ok w = true →
     NoDup (map g_id (groups w)) →
     let w' := snd (delete_group u id w) in
     g_status_of (delete_group u id w) = 204%nat
     ∧ find_group id w' = None
     ∧ (∀ id', id' ≠ id → find_group id' w' = find_group id' w)
     ∧ messages w' = messages w
     ∧ (∀ v qpage qlimit,
          status_of (get_messages v id qpage qlimit w') = 404%nat)
     ∧ (∀ v c t md r, status_of (post_message v id c t md r w') = 404%nat)
     ∧ (∀ v messageId, status_of (read_message v id messageId w') = 404%nat)).
Proof.
  intros Hg Hc. split.
  - intros Hne. unfold delete_group, bind, Group_findById.
    unfold find_group in Hg. rewrite Hg. by rewrite owner_gate_refuses.
  - intros He Hok Hnd w'.
    assert (Hrun : delete_group u id w
                   = (Returned (mkGroupResponse 204 GEmpty),
                      after_group_write (remove_first_group id (groups w)) w)).
    { unfold delete_group, bind, Group_findById. unfold find_group in Hg.
      rewrite Hg, owner_gate_passes by done.
      unfold Group_deleteOne, group_write. by rewrite Hok. }
    assert (Hgone : ∀ id', find_group id' w'
                           = if String.eqb id' id then None
                             else find_group id' w).
    { intros id'. subst w'. rewrite Hrun. unfold after_group_write. simpl.
      by rewrite find_group_remove_first. }
    assert (Hnone : find_group id w' = None).
    { by rewrite Hgone, String.eqb_refl. }
    split; [| split; [done | split; [| split; [| split; [| split]]]]].
    + unfold g_status_of. by rewrite Hrun.
    + intros id' Hne. rewrite Hgone.
      by assert (String.eqb id' id = false) as -> by by apply String.eqb_neq.
    + subst w'. by rewrite Hrun.
    + intros. unfold status_of. by rewrite (proj1 (get_messages_gate _ _ _ _ _)).
    + intros. unfold status_of. by rewrite post_message_no_group.
    + intros. unfold status_of. by rewrite (proj1 (read_message_gate _ _ _ _)).
Qed.

Lemma delete_group_by_owner_only_witness :
  g_status_of (delete_group U2 idG world1) = 403%nat
  ∧ (let w' := snd (delete_group U1 idG world1) in
     g_status_of (delete_group U1 idG world1) = 204%nat
     ∧ find_group idG w' = None ∧ messages w' = [hello]
     ∧ status_of (get_messages U1 idG None None w') = 404%nat).
Proof.
  destruct (delete_group_by_owner_only U2 idG world1 groupG eq_refl
              ltac:(discriminate)) as [H403 _].
  destruct (delete_group_by_owner_only U1 idG world1 groupG eq_refl
              ltac:(discriminate)) as [_ H204].
  split.
  - unfold g_status_of. rewrite H403; [reflexivity | discriminate].
  - destruct H204 as (Hst & Hnone & _ & Hmsgs & Hget & _);
      [reflexivity | reflexivity
      | apply (bool_decide_unpack _); vm_compute; exact I |].
    split; [exact Hst |]. split; [exact Hnone |]. split; [exact Hmsgs |].
    apply Hget.
Defined.

(** X18: only the creator transfers a group, and to anybody: the new
    owner is taken from the body with no test that such a user exists or is a
    member.  Afterwards the old creator (if another user was named) is
    answered 403 by the delete route, and the new one passes it. *)
Theorem transfer_hands_over u id newOwnerId w g :
  find_group id w = Some g → creator g = au_id u → au_id u ≠ "" →
  next_write_ok w = true →
  let w' := snd (transfer_group u id newOwnerId w) in
  g_status_of (transfer_group u id newOwnerId w) = 200%nat
  ∧ find_group id w' = Some (with_creator newOwnerId g)
  ∧ (newOwnerId ≠ "" → newOwnerId ≠ au_id u →
     g_status_of (delete_group u id w') = 403%nat
     ∧ ∀ v, au_id v = newOwnerId →
            g_status_of (delete_group v id w') ∈ [204; 0]%nat).
Proof.
  intros Hg He Hne Hok w'.
  destruct (find_group_elem _ _ _ Hg) as [Hin Hid].
  assert (Hc : creator g ≠ "") by congruence.
  assert (Hrun : transfer_group u id newOwnerId w
                 = (Returned
                      (mkGroupResponse 200 (GGroup (with_creator newOwnerId g))),
                    after_group_write
                      (replace_group (with_creator newOwnerId g) (groups w)) w)).
  { unfold transfer_group, bind, Group_findById. unfold find_group in Hg.
    rewrite Hg, owner_gate_passes by done. by rewrite Group_save_ok. }
  assert (Hfind : find_group id w' = Some (with_creator newOwnerId g)).
  { subst w'. rewrite Hrun, <- Hid.
    change (g_id g) with (g_id (with_creator newOwnerId g)) at 1.
    apply find_group_replace. exists g. done. }
  split; [| split; [done |]].
  - unfold g_status_of. by rewrite Hrun.
  - intros Hnew Hother. split.
    + unfold g_status_of, delete_group, bind, Group_findById.
      unfold find_group in Hfind. rewrite Hfind.
      by rewrite owner_gate_refuses.
    + intros v Hv. unfold g_status_of, delete_group, bind, Group_findById.
      unfold find_group in Hfind. rewrite Hfind.
      rewrite owner_gate_passes by done.
      unfold Group_deleteOne, group_write.
      destruct (next_write_ok w'); simpl; set_solver.
Qed.

Lemma transfer_hands_over_witness :
  let w' := snd (transfer_group U1 idG idU3 world1) in
  g_status_of (transfer_group U1 idG idU3 world1) = 200%nat
  ∧ find_group idG w' = Some (with_creator idU3 groupG)
  ∧ g_status_of (delete_group U1 idG w') = 403%nat
  ∧ g_status_of (delete_group U3 idG w') ∈ [204; 0]%nat.
Proof.
  destruct (transfer_hands_over U1 idG idU3 world1 groupG eq_refl eq_refl
              ltac:(discriminate) eq_refl) as (Hst & Hfind & Hafter).
  destruct Hafter as [H403 H204]; [discriminate | discriminate |].
  split; [exact Hst |]. split; [exact Hfind |]. split; [exact H403 |].
  apply H204. reflexivity.
Defined.

(** ** PUT /:id *)

Lemma update_group_run id name ms w g :
  find_group id w = Some g →
  let g1 := if truthy name then with_name (default "" name) g else g in
  let g2 := match ms with Some l => with_members l g1 | None => g1 end in
  update_group id name ms w
  = if next_write_ok w
    then (Returned (mkGroupResponse 200 (GGroup g2)),
          after_group_write (replace_group g2 (groups w)) w)
    else (Returned (mkGroupResponse 500 (GMessage "Internal server error")),
          record (Logged "error" "Error updating group:")
            (set_faults (tail (faults w)) w)).
Proof.
  intros Hg g1 g2. unfold update_group, try_catch, bind, Group_findById.
  unfold find_group in Hg. rewrite Hg. fold g1. fold g2.
  destruct (next_write_ok w) eqn:Hok.
  - by rewrite Group_save_ok.
  - by rewrite Group_save_rejected.
Qed.

(** X19: the update route asks nothing about the caller.  For an existing
    group and an acknowledged write, a member list in the body — an empty one
    too — replaces the stored list as it is; an empty name is ignored, a
    non-empty one is stored; the creator is never changed.  When the write is
    rejected the answer is 500 and the groups are as before. *)
Theorem update_replaces_members id name ms w g :
  find_group id w = Some g →
  let w' := snd (update_group id name (Some ms) w) in
  (next_write_ok w = true →
   g_status_of (update_group id name (Some ms) w) = 200%nat
   ∧ ∃ g', find_group id w' = Some g'
           ∧ members g' = ms ∧ creator g' = creator g
           ∧ g_name g' = or_else name (g_name g))
  ∧ (next_write_ok w = false →
     g_status_of (update_group id name (Some ms) w) = 500%nat
     ∧ groups w' = groups w).
Proof.
  intros Hg w'. destruct (find_group_elem _ _ _ Hg) as [Hin Hid].
  pose proof (update_group_run id name (Some ms) w g Hg) as Hrun.
  cbv zeta in Hrun. split; intros Hok; rewrite Hok in Hrun.
  - split; [unfold g_status_of; by rewrite Hrun |].
    set (g2 := with_members ms
                 (if truthy name then with_name (default "" name) g else g))
      in *.
    assert (Hid2 : g_id g2 = id) by (subst g2; by destruct (truthy name)).
    exists g2. split; [| split; [| split]].
    + subst w'. rewrite Hrun, <- Hid2.
      apply find_group_replace. exists g. split; [done | congruence].
    + done.
    + simpl. by destruct (truthy name).
    + simpl. unfold truthy, or_else. destruct name as [n|]; [| done].
      simpl. by destruct (String.eqb n "").
  - split; [unfold g_status_of; by rewrite Hrun |].
    subst w'. by rewrite Hrun.
Qed.

Lemma update_replaces_members_witness :
  let w' := snd (update_group idH (Some "") (Some [idU3; idU2]) world1) in
  g_status_of (update_group idH (Some "") (Some [idU3; idU2]) world1) = 200%nat
  ∧ ∃ g', find_group idH w' = Some g'
          ∧ members g' = [idU3; idU2] ∧ creator g' = idU3
          ∧ g_name g' = "private".
Proof.
  apply (update_replaces_members idH (Some "") [idU3; idU2] world1 groupH);
    reflexivity.
Defined.

(** ** POST / *)

(** X20: the create route takes the creator from the body, not from the
    token.  When the write is acknowledged the answer is 201, the new group
    is added to the collection with that user as creator and only member, and
    (its id being new) that user's first message to the group passes the
    membership gate. *)
Theorem created_group_is_usable name creatorId w v :
  next_write_ok w = true →
  oid (oidgen w) ∉ map g_id (groups w) →
  au_id v = creatorId →
  let g := mkGroup (oid (oidgen w)) name [creatorId] creatorId in
  let w' := snd (create_group name creatorId w) in
  fst (create_group name creatorId w) = Returned (mkGroupResponse 201 (GGroup g))
  ∧ groups w' = (groups w ++ [g])%list
  ∧ find_group (g_id g) w' = Some g
  ∧ messages w' = messages w
  ∧ (∀ c t md,
       status_of (post_message v (g_id g) c t md None w') ∈ [201; 500]%nat).
Proof.
  intros Hok Hfresh Hv g w'.
  assert (Hrun : create_group name creatorId w
                 = (Returned (mkGroupResponse 201 (GGroup g)),
                    after_group_write (groups w ++ [g])
                      (set_oidgen (S (oidgen w)) w))).
  { unfold create_group, Group_create, bind, ObjectId_new, group_write.
    simpl. unfold next_write_ok in *. simpl. by rewrite Hok. }
  assert (Hfind : find_group (g_id g) w' = Some g).
  { subst w'. rewrite Hrun. unfold find_group, after_group_write. simpl.
    rewrite find_app_None.
    - simpl. by rewrite String.eqb_refl.
    - apply find_None_iff. intros x Hx. apply String.eqb_neq.
      intros Hxid. apply Hfresh. rewrite <- Hxid.
      by apply list_elem_of_fmap_2. }
  split; [by rewrite Hrun |]. split; [subst w'; by rewrite Hrun |].
  split; [done |]. split; [subst w'; by rewrite Hrun |].
  intros c t md.
  assert (Hm : is_member v g = true).
  { unfold is_member. apply bool_decide_eq_true_2. simpl. rewrite Hv.
    apply list_elem_of_here. }
  unfold status_of. destruct (next_write_ok w') eqn:Hok'.
  - rewrite (post_message_created _ _ _ _ _ _ _ g) by done. set_solver.
  - rewrite (post_message_rejected _ _ _ _ _ _ _ g) by done. set_solver.
Qed.

Lemma created_group_is_usable_witness :
  let g := mkGroup (oid 1) "new" [idU3] idU3 in
  let w' := snd (create_group "new" idU3 world1) in
  fst (create_group "new" idU3 world1)
  = Returned (mkGroupResponse 201 (GGroup g))
  ∧ groups w' = [groupG; groupH; g]
  ∧ find_group (oid 1) w' = Some g
  ∧ messages w' = [hello]
  ∧ (∀ c t md,
       status_of (post_message U3 (oid 1) c t md None w') ∈ [201; 500]%nat).
Proof.
  apply (created_group_is_usable "new" idU3 world1 U3);
    [reflexivity | | reflexivity].
  intros H. vm_compute in H.
  repeat (apply elem_of_cons in H as [H | H]; [discriminate |]).
  inversion H.
Defined.

(** ** The member lists stay free of duplicates *)






(** * Properties of the middleware and of the upload route *)

Lemma append_cons a (s t : string) : String a s +:+ t = String a (s +:+ t).
Proof. reflexivity. Qed.

Lemma split_lacks sep t : lacks sep t = true → split sep t = [t].
Proof.
  induction t as [|a t IH]; [done |]. simpl.
  intros [Ha Ht]%andb_true_iff. apply negb_true_iff in Ha.
  by rewrite Ha, IH.
Qed.

Lemma split_app sep t rest :
  lacks sep t = true →
  split sep (t +:+ String sep rest) = t :: split sep rest.
Proof.
  induction t as [|a t IH].
  - intros _. change ("" +:+ String sep rest) with (String sep rest).
    simpl. by rewrite Ascii.eqb_refl.
  - intros H. cbn [lacks] in H. apply andb_true_iff in H as [Ha Ht].
    apply negb_true_iff in Ha.
    rewrite append_cons. cbn [split]. by rewrite Ha, IH.
Qed.

Lemma default_Some {A} (d x : A) : default d (Some x) = x.
Proof. reflexivity. Qed.

Lemma prefix_Bearer x : String.prefix "Bearer " ("Bearer " +:+ x) = true.
Proof. by destruct x. Qed.

Lemma split_Bearer x : split " " ("Bearer " +:+ x) = "Bearer" :: split " " x.
Proof. apply (split_app " " "Bearer" x). reflexivity. Qed.

(** X22: the authentication middleware hands a request on only with what
    [jwt.verify] returned for the token, and the token is the text between the
    first and the second space of the header: without a header, or with one
    that does not start with "Bearer ", the answer is 401 and [verify] is not
    consulted; otherwise the outcome is that of [verify] on the token,
    whatever follows a second space. *)
Theorem auth_middleware_token verify :
  authMiddleware verify None = Refused 401 "Missing or invalid auth token"
  ∧ (∀ h, String.prefix "Bearer " h = false →
          authMiddleware verify (Some h)
          = Refused 401 "Missing or invalid auth token")
  ∧ (∀ token rest,
       lacks " " token = true →
       authMiddleware verify (Some ("Bearer " +:+ token)) = verified (verify token)
       ∧ authMiddleware verify
           (Some ("Bearer " +:+ token +:+ String " " rest))
         = verified (verify token)).
Proof.
  split; [done |]. split.
  - intros h Hp. unfold authMiddleware. simpl. rewrite Hp.
    by rewrite orb_true_r.
  - intros token rest Htok. split.
    + unfold authMiddleware.
      change (truthy (Some ("Bearer " +:+ token))) with true.
      cbn [negb orb]. rewrite !default_Some, prefix_Bearer. cbn [negb].
      rewrite split_Bearer, split_lacks by done.
      done.
    + unfold authMiddleware.
      change (truthy (Some ("Bearer " +:+ token +:+ String " " rest)))
        with true.
      cbn [negb orb]. rewrite !default_Some, prefix_Bearer. cbn [negb].
      rewrite split_Bearer, split_app by done.
      done.
Qed.

Lemma auth_middleware_token_witness :
  let verify := λ t, if String.eqb t "abc" then Some Ann else None in
  authMiddleware verify (Some "Token abc")
  = Refused 401 "Missing or invalid auth token"
  ∧ authMiddleware verify (Some "Bearer abc def") = Next Ann
  ∧ authMiddleware verify (Some "Bearer abd")
    = Refused 401 "Invalid or expired token".
Proof.
  intros verify. split; [| split].
  - apply (proj1 (proj2 (auth_middleware_token verify)) "Token abc").
    reflexivity.
  - apply (proj2 (proj2 (proj2 (auth_middleware_token verify)) "abc" "def"
                    eq_refl)).
  - apply (proj1 (proj2 (proj2 (auth_middleware_token verify)) "abd" ""
                    eq_refl)).
Defined.

(** X23: the upload route names the object after the part of [fileType]
    between its first and its second slash.  A [fileType] without a slash —
    "png" instead of "image/png" — is not refused: the key ends in
    ".undefined".  A missing or empty [fileType] is answered 400 without
    signing anything, and the file URL that is returned carries the key that
    was signed. *)
Theorem upload_key_extension uuid bucket region sign :
  (∀ major minor rest,
     lacks "/" major = true → lacks "/" minor = true →
     upload_key uuid (major +:+ String "/" minor)
     = "uploads/" +:+ uuid +:+ "." +:+ minor
     ∧ upload_key uuid (major +:+ String "/" (minor +:+ String "/" rest))
       = "uploads/" +:+ uuid +:+ "." +:+ minor)
  ∧ (∀ fileType,
       lacks "/" fileType = true →
       upload_key uuid fileType = "uploads/" +:+ uuid +:+ ".undefined")
  ∧ presigned_upload_url uuid bucket region sign None
    = UploadMessage 400 "Missing fileType query param"
  ∧ presigned_upload_url uuid bucket region sign (Some "")
    = UploadMessage 400 "Missing fileType query param"
  ∧ (∀ fileType uploadURL fileURL,
       presigned_upload_url uuid bucket region sign (Some fileType)
       = UploadUrls uploadURL fileURL →
       sign bucket (upload_key uuid fileType) fileType = Some uploadURL
       ∧ fileURL = "https://" +:+ bucket +:+ ".s3." +:+ region
                   +:+ ".amazonaws.com/" +:+ upload_key uuid fileType).
Proof.
  split; [| split; [| split; [done | split; [done |]]]].
  - intros major minor rest Hmajor Hminor. unfold upload_key. split.
    + by rewrite split_app, split_lacks.
    + by rewrite !split_app.
  - intros fileType Hft. unfold upload_key. by rewrite split_lacks.
  - intros fileType uploadURL fileURL. unfold presigned_upload_url.
    destruct (negb (truthy (Some fileType))); [done |]. simpl.
    destruct (sign bucket _ fileType) as [url|]; [| done].
    by intros [= <- <-].
Qed.

Lemma upload_key_extension_witness :
  let sign := λ _ key _ : string, Some ("signed:" +:+ key) in
  upload_key "u-1" "image/png" = "uploads/u-1.png"
  ∧ upload_key "u-1" "png" = "uploads/u-1.undefined"
  ∧ sign "b" (upload_key "u-1" "png") "png" = Some "signed:uploads/u-1.undefined"
  ∧ "https://b.s3.r.amazonaws.com/uploads/u-1.undefined"
    = "https://" +:+ "b" +:+ ".s3." +:+ "r" +:+ ".amazonaws.com/"
      +:+ upload_key "u-1" "png".
Proof.
  intros sign.
  destruct (upload_key_extension "u-1" "b" "r" sign)
    as (Hext & Hnone & _ & _ & Hurl).
  split; [| split].
  - apply (proj1 (Hext "image" "png" "" eq_refl eq_refl)).
  - apply (Hnone "png" eq_refl).
  - apply (Hurl "png" "signed:uploads/u-1.undefined"
             "https://b.s3.r.amazonaws.com/uploads/u-1.undefined").
    reflexivity.
Defined.
